(** * react-currency-input: the currency formatter and parser

    A shallow embedding of [formatCurrency] and [parseCurrency] of
    [src/Components/CurrencyInput.tsx], with the JavaScript built-ins they
    call ([String.prototype.replace] with the three regular expressions the
    component builds, [String.prototype.split], [String.prototype.repeat],
    [parseFloat], [Number.prototype.toString], [Number.prototype.toFixed]),
    modelled after ECMA-262.

    Strings are lists of code units ([ascii], the Latin-1 range).  Numbers
    are IEEE 754 binary64 values given by their encoding: a sign and the 63
    low bits (biased exponent and fraction).  All arithmetic on them is exact
    integer arithmetic on the value scaled by [2^1074].

    Conversions from decimal text are correctly rounded (nearest, ties to
    even), as the engines do; ECMA-262 leaves the result open beyond twenty
    significant digits.  [Number::toString] picks, among the shortest
    decimals that round back, the one nearest to the number.  Limits on the
    length of a string are not modelled. *)

From Stdlib Require Import String.
From Stdlib Require Import ZArith List Ascii Bool Lia.
Import ListNotations.

#[local] Open Scope char_scope.
#[local] Open Scope Z_scope.

(** * The built-ins *)

Module JS.

(** ** Strings *)

Definition jsstring : Type := list ascii.

Definition str (s : String.string) : jsstring :=
  String.list_ascii_of_string s.

Arguments str s%_string.

Definition isDigit (c : ascii) : bool :=
  let n := N_of_ascii c in ((48 <=? n) && (n <=? 57))%N.

(** [\w] of a regular expression without the [u] and [i] flags. *)
Definition isWordChar (c : ascii) : bool :=
  let n := N_of_ascii c in
  (((48 <=? n) && (n <=? 57)) || ((65 <=? n) && (n <=? 90))
   || ((97 <=? n) && (n <=? 122)) || (n =? 95))%N.

(** WhiteSpace and LineTerminator code units below 256. *)
Definition isWhiteSpace (c : ascii) : bool :=
  let n := N_of_ascii c in
  (((9 <=? n) && (n <=? 13)) || (n =? 32) || (n =? 160))%N.

Definition digitValue (c : ascii) : Z := Z.of_N (N_of_ascii c) - 48.

Definition digitChar (d : Z) : ascii := ascii_of_N (Z.to_N (d + 48)).

(** The mathematical value of a run of decimal digits, most significant
    first. *)
Definition digitsValue (l : jsstring) : Z :=
  fold_left (fun acc c => 10 * acc + digitValue c) l 0.

Fixpoint digits_aux (fuel : nat) (n : Z) (acc : jsstring) : jsstring :=
  match fuel with
  | O => digitChar (n mod 10) :: acc
  | S f =>
      if n <? 10 then digitChar n :: acc
      else digits_aux f (n / 10) (digitChar (n mod 10) :: acc)
  end.

(** The decimal representation of a non-negative integer, with no leading
    zero. *)
Definition digitsOf (n : Z) : jsstring :=
  digits_aux (Z.to_nat (Z.log2 n)) n [].

Definition zeros (n : Z) : jsstring := repeat "0" (Z.to_nat n).

(** The longest prefix of characters satisfying [f], and the rest. *)
Fixpoint span (f : ascii -> bool) (l : jsstring) : jsstring * jsstring :=
  match l with
  | [] => ([], [])
  | c :: r =>
      if f c then let (a, b) := span f r in (c :: a, b) else ([], l)
  end.

Fixpoint dropWhile (f : ascii -> bool) (l : jsstring) : jsstring :=
  match l with
  | [] => []
  | c :: r => if f c then dropWhile f r else l
  end.

Fixpoint startsWith (p l : jsstring) : bool :=
  match p, l with
  | [], _ => true
  | a :: p', b :: l' => Ascii.eqb a b && startsWith p' l'
  | _ :: _, [] => false
  end.

(** ** Numbers: IEEE 754 binary64 *)

(** [Finite neg w]: [w] is the biased exponent (11 bits) followed by the
    fraction (52 bits); [0 <= w < inf_bits]. *)
Inductive number : Type :=
  | NaN
  | Infinity (neg : bool)
  | Finite (neg : bool) (w : Z).

Definition inf_bits : Z := 2047 * 2 ^ 52.

Definition expo_field (w : Z) : Z := w / 2 ^ 52.
Definition frac_field (w : Z) : Z := w mod 2 ^ 52.

(** The magnitude encoded by [w], times [2^1074]: an integer.  Subnormals
    have exponent field 0; at [inf_bits] the formula gives [2^1024], the
    bound that rounding replaces by infinity. *)
Definition scaled (w : Z) : Z :=
  if expo_field w =? 0 then frac_field w
  else (2 ^ 52 + frac_field w) * 2 ^ (expo_field w - 1).

Definition unit_scale : Z := 2 ^ 1074.

Definition wf_number (x : number) : Prop :=
  match x with
  | Finite _ w => 0 <= w < inf_bits
  | _ => True
  end.

Definition number_eqb (x y : number) : bool :=
  match x, y with
  | NaN, NaN => true
  | Infinity a, Infinity b => Bool.eqb a b
  | Finite a v, Finite b w => Bool.eqb a b && (v =? w)
  | _, _ => false
  end.

(** The largest encoding [w <= inf_bits] whose magnitude is at most [p/q],
    found bit by bit from the top. *)
Fixpoint floor_bits (fuel : nat) (p q acc : Z) : Z :=
  match fuel with
  | O => acc
  | S k =>
      let cand := acc + 2 ^ Z.of_nat k in
      if (cand <=? inf_bits) && (scaled cand * q <=? p * unit_scale)
      then floor_bits k p q cand
      else floor_bits k p q acc
  end.

(** The Number value of the non-negative rational [p/q] ([0 <= p], [0 < q]):
    the nearest binary64 magnitude, ties to the even significand, [2^1024]
    and above becoming infinity. *)
Definition round_ratio (neg : bool) (p q : Z) : number :=
  let lo := floor_bits 63 p q 0 in
  if lo =? inf_bits then Infinity neg
  else
    let r :=
      match 2 * (p * unit_scale) ?= (scaled lo + scaled (lo + 1)) * q with
      | Lt => lo
      | Gt => lo + 1
      | Eq => if Z.even lo then lo else lo + 1
      end in
    if r =? inf_bits then Infinity neg else Finite neg r.

(** The Number value of [m * 10^e]. *)
Definition round_decimal (neg : bool) (m e : Z) : number :=
  if 0 <=? e then round_ratio neg (m * 10 ^ e) 1
  else round_ratio neg m (10 ^ (- e)).

(** ** Completions *)

Inductive exception : Type := RangeError.

Inductive completion (A : Type) : Type :=
  | Normal (a : A)
  | Throw (e : exception).

Arguments Normal {A} a.
Arguments Throw {A} e.

Definition bind {A B : Type} (c : completion A) (k : A -> completion B)
  : completion B :=
  match c with
  | Normal a => k a
  | Throw e => Throw e
  end.

Notation "x <- c ;; k" := (bind c (fun x => k))
  (at level 61, c at next level, right associativity).

(** ** parseFloat *)

(** An optional sign before the rest. *)
Definition splitSign (t : jsstring) : bool * jsstring :=
  match t with
  | "-" :: r => (true, r)
  | "+" :: r => (false, r)
  | _ => (false, t)
  end.

(** ExponentPart of a StrDecimalLiteral; 0 when there is none. *)
Definition parseExponent (l : jsstring) : Z :=
  match l with
  | c :: r =>
      if Ascii.eqb c "e" || Ascii.eqb c "E" then
        let (neg, r') := splitSign r in
        match fst (span isDigit r') with
        | [] => 0
        | ds => if neg then - digitsValue ds else digitsValue ds
        end
      else 0
  | [] => 0
  end.

(** The digits of the longest prefix that is a StrUnsignedDecimalLiteral
    other than [Infinity], rounded to a Number; [NaN] when there is no such
    prefix. *)
Definition decimalPrefixValue (neg : bool) (u : jsstring) : number :=
  let (ip, r1) := span isDigit u in
  let (fp, r2) :=
    match r1 with
    | "." :: r => span isDigit r
    | _ => ([], r1)
    end in
  match ip ++ fp with
  | [] => NaN
  | ds =>
      round_decimal neg (digitsValue ds)
        (parseExponent r2 - Z.of_nat (length fp))
  end.

(** Leading white space is skipped, the longest prefix that is a
    StrDecimalLiteral is read, and its value is rounded to a Number; [NaN]
    when no prefix is one. *)
Definition parseFloat (s : jsstring) : number :=
  let (neg, u) := splitSign (dropWhile isWhiteSpace s) in
  if startsWith (str "Infinity") u then Infinity neg
  else decimalPrefixValue neg u.

Definition isNaN (x : number) : bool :=
  match x with NaN => true | _ => false end.

(** ** Number.prototype.toString *)

Definition lt_pow10 (V n : Z) : bool :=
  if 0 <=? n then V <? 10 ^ n * unit_scale
  else V * 10 ^ (- n) <? unit_scale.

Fixpoint decade_from (fuel : nat) (n V : Z) : Z :=
  match fuel with
  | O => n
  | S f => if lt_pow10 V n then n else decade_from f (n + 1) V
  end.

(** The [n] with [10^(n-1) <= V / 2^1074 < 10^n], for a positive binary64
    magnitude. *)
Definition decade (V : Z) : Z := decade_from 640 (-324) V.

Definition roundsTo (w s e : Z) : bool :=
  number_eqb (round_decimal false s e) (Finite false w).

(** Of [lo] and [hi], the one nearer to [p/q]; the even one when [p/q] is
    halfway. *)
Definition nearer (p q lo hi : Z) : Z :=
  match 2 * p ?= (lo + hi) * q with
  | Lt => lo
  | Gt => hi
  | Eq => if Z.even lo then lo else hi
  end.

(** The integers next to [p/q] (below and above), as multiples of [10^e],
    kept when they round to [w]; of two that do, the nearer one. *)
Definition choose (w e p q : Z) : option (Z * Z) :=
  let lo := p / q in
  let hi := if p mod q =? 0 then lo else lo + 1 in
  match roundsTo w lo e, roundsTo w hi e with
  | true, true => Some (nearer p q lo hi, e)
  | true, false => Some (lo, e)
  | false, true => Some (hi, e)
  | false, false => None
  end.

(** The [k]-digit decimals next to the magnitude of [w], which lies in the
    decade [n0]: the candidates are the integers next to
    [scaled w / (2^1074 * 10^(n0 - k))]. *)
Definition candidate (w n0 k : Z) : option (Z * Z) :=
  let e := n0 - k in
  if 0 <=? e then choose w e (scaled w) (unit_scale * 10 ^ e)
  else choose w e (scaled w * 10 ^ (- e)) unit_scale.

(** The first digit count [k] with a candidate; after [fuel] counts, the
    exact decimal expansion [scaled w * 5^1074 * 10^-1074]. *)
Fixpoint shortest_from (fuel : nat) (w n0 k : Z) : Z * Z :=
  match fuel with
  | O => (scaled w * 5 ^ 1074, -1074)
  | S f =>
      match candidate w n0 k with
      | Some d => d
      | None => shortest_from f w n0 (k + 1)
      end
  end.

Fixpoint strip_zeros (fuel : nat) (s e : Z) : Z * Z :=
  match fuel with
  | O => (s, e)
  | S f =>
      if (0 <? s) && (s mod 10 =? 0) then strip_zeros f (s / 10) (e + 1)
      else (s, e)
  end.

(** The decimal [s * 10^e] of fewest digits whose Number value is the
    magnitude [w]; [s] is not divisible by 10. *)
Definition shortest (w : Z) : Z * Z :=
  let (s, e) := shortest_from 770 w (decade (scaled w)) 1 in
  strip_zeros (Z.to_nat (Z.log2 s)) s e.

(** Steps 6 to 12 of Number::toString for radix 10: the digits of [s] with
    the decimal point at [n = e + k], in plain notation when
    [-5 <= n <= 21] and in exponent notation otherwise. *)
Definition renderDecimal (s e : Z) : jsstring :=
  let ds := digitsOf s in
  let k := Z.of_nat (length ds) in
  let n := e + k in
  if (-5 <=? n) && (n <=? 21) then
    if k <=? n then ds ++ zeros (n - k)
    else if 0 <? n then
      firstn (Z.to_nat n) ds ++ "." :: skipn (Z.to_nat n) ds
    else "0" :: "." :: zeros (- n) ++ ds
  else
    let tail :=
      "e" :: (if n - 1 <? 0 then "-" else "+") :: digitsOf (Z.abs (n - 1)) in
    match ds with
    | [] => tail
    | [d] => d :: tail
    | d :: r => d :: "." :: r ++ tail
    end.

Definition toString (x : number) : jsstring :=
  match x with
  | NaN => str "NaN"
  | Infinity neg => (if neg then ["-"] else []) ++ str "Infinity"
  | Finite neg w =>
      if w =? 0 then ["0"]
      else
        (if neg then ["-"] else [])
        ++ (let (s, e) := shortest w in renderDecimal s e)
  end.

(** ** Number.prototype.toFixed *)

(** The integer [n] for which [n / 10^f] is nearest to the magnitude of
    [w], the larger one of two. *)
Definition fixedInteger (w f : Z) : Z :=
  (2 * scaled w * 10 ^ f + unit_scale) / (2 * unit_scale).

(** The digits of [n] with a decimal point before the last [f] ones, padded
    with zeros on the left to [f + 1] digits. *)
Definition fixedDigits (n f : Z) : jsstring :=
  let m := digitsOf n in
  if f =? 0 then m
  else
    let k := Z.of_nat (length m) in
    let m' := if k <=? f then zeros (f + 1 - k) ++ m else m in
    let k' := Z.of_nat (length m') in
    firstn (Z.to_nat (k' - f)) m' ++ "." :: skipn (Z.to_nat (k' - f)) m'.

Definition toFixed (x : number) (f : Z) : completion jsstring :=
  if (f <? 0) || (100 <? f) then Throw RangeError
  else
    Normal
      match x with
      | NaN | Infinity _ => toString x
      | Finite neg w =>
          (if neg && (0 <? w) then ["-"] else [])
          ++ (if 10 ^ 21 * unit_scale <=? scaled w
              then toString (Finite false w)
              else fixedDigits (fixedInteger w f) f)
      end.

(** ** String.prototype.repeat, replace and split *)

Definition repeatString (s : jsstring) (count : Z) : completion jsstring :=
  if count <? 0 then Throw RangeError
  else Normal (concat (repeat s (Z.to_nat count))).

(** [s.replace(new RegExp("[^0-9\\" + c + "]", "g"), "")] *)
Definition removeOutside (c : ascii) (s : jsstring) : jsstring :=
  filter (fun x => isDigit x || Ascii.eqb x c) s.

(** [s.replace(new RegExp("\\" + c, "g"), r)] *)
Definition replaceChar (c : ascii) (r : jsstring) (s : jsstring) : jsstring :=
  flat_map (fun x => if Ascii.eqb x c then r else [x]) s.

Fixpoint split (c : ascii) (s : jsstring) : list jsstring :=
  match s with
  | [] => [[]]
  | x :: r =>
      if Ascii.eqb x c then [] :: split c r
      else
        match split c r with
        | h :: t => (x :: h) :: t
        | [] => [[x]]
        end
  end.

Fixpoint digitRun (l : jsstring) : nat :=
  match l with
  | c :: r => if isDigit c then S (digitRun r) else O
  | [] => O
  end.

(** [\B] between a character (or the start) and the rest of the string. *)
Definition notWordBoundary (prev : option ascii) (rest : jsstring) : bool :=
  Bool.eqb
    (match prev with Some c => isWordChar c | None => false end)
    (match rest with c :: _ => isWordChar c | [] => false end).

(** [(?=(\d{3})+(?!\d))]: the digits that follow, up to the first
    non-digit, come in a positive multiple of three. *)
Definition groupsOfThreeAhead (rest : jsstring) : bool :=
  let r := digitRun rest in
  (Nat.ltb 0 r) && (Nat.eqb (Nat.modulo r 3) 0).

(** [s.replace(/\B(?=(\d{3})+(?!\d))/g, sep)]: [sep] is inserted at every
    position where the empty match succeeds. *)
Fixpoint insertSeparators (sep : ascii) (prev : option ascii) (l : jsstring)
  : jsstring :=
  (if notWordBoundary prev l && groupsOfThreeAhead l then [sep] else [])
  ++ match l with
     | [] => []
     | c :: r => c :: insertSeparators sep (Some c) r
     end.

End JS.

Import JS.

(** * The component: [CurrencyInput.tsx] *)

Inductive Separator : Type := Dot | Comma.

Definition sepChar (s : Separator) : ascii :=
  match s with Dot => "." | Comma => "," end.

Record Config : Type := mkConfig {
  decimalLength : Z;
  decimalSeparator : Separator;
  thousandSeparator : Separator
}.

(** The component's defaults: [decimalLength = 2], [decimalSeparator = ","],
    [thousandSeparator = "."]. *)
Definition defaultConfig : Config := mkConfig 2 Comma Dot.

(** The argument of [formatCurrency]: [string | number]. *)
Inductive value : Type :=
  | VStr (s : jsstring)
  | VNum (x : number).

(** The template [`0${decimalSeparator}${"0".repeat(decimalLength)}`]. *)
Definition zeroSentinel (cfg : Config) : completion jsstring :=
  z <- repeatString ["0"] (decimalLength cfg) ;;
  Normal ("0" :: sepChar (decimalSeparator cfg) :: z).

Definition numericValue (cfg : Config) (s : jsstring) : jsstring :=
  removeOutside (sepChar (decimalSeparator cfg)) s.

Definition normalizedValue (cfg : Config) (s : jsstring) : jsstring :=
  replaceChar (sepChar (decimalSeparator cfg)) ["."] (numericValue cfg s).

Definition numberValue (cfg : Config) (s : jsstring) : number :=
  parseFloat (normalizedValue cfg s).

Definition isEmpty (s : jsstring) : bool :=
  match s with [] => true | _ => false end.

(** Lines 184 to 193: from [numberValue] to the returned string. *)
Definition formatNumber (cfg : Config) (x : number) : completion jsstring :=
  fixedValue <- toFixed x (decimalLength cfg) ;;
  let parts := split "." fixedValue in
  let integerPart := hd [] parts in
  let decimalPart :=
    match nth_error parts 1 with
    | Some (c :: p) => sepChar (decimalSeparator cfg) :: c :: p
    | _ => []
    end in
  let integerWithThousandSeparator :=
    insertSeparators (sepChar (thousandSeparator cfg)) None integerPart in
  Normal (integerWithThousandSeparator ++ decimalPart).

Definition formatCurrency (cfg : Config) (v : value) : completion jsstring :=
  let s := match v with VNum x => toString x | VStr s => s end in
  if isEmpty s then zeroSentinel cfg
  else if isEmpty (numericValue cfg s) then zeroSentinel cfg
  else if isNaN (numberValue cfg s) then zeroSentinel cfg
  else formatNumber cfg (numberValue cfg s).

Definition parseCurrency (cfg : Config) (s : jsstring) : jsstring :=
  replaceChar (sepChar (decimalSeparator cfg)) ["."]
    (replaceChar (sepChar (thousandSeparator cfg)) [] s).

(** The handler's conversion of the displayed text to the form value:
    [parseFloat(parseCurrency(formattedValue))]. *)
Definition formValue (cfg : Config) (formatted : jsstring) : number :=
  parseFloat (parseCurrency cfg formatted).

(** The Number value of a decimal literal of the program text, such as
    [1532.31] in [App.tsx]. *)
Definition numericLiteral (s : String.string) : number := parseFloat (str s).

Arguments numericLiteral s%_string.

(** ** The rendered input and the change handler *)

(** [String(field.value)]: the field holds a string (the default value) or
    a number (after a change). *)
Definition StringOf (v : value) : jsstring :=
  match v with
  | VStr s => s
  | VNum x => toString x
  end.

(** [defaultValue={String(initialValue)}] *)
Definition defaultValue (initialValue : number) : value :=
  VStr (toString initialValue).

(** [value={formatCurrency(String(field.value))}] *)
Definition renderedValue (cfg : Config) (field : value)
  : completion jsstring :=
  formatCurrency cfg (VStr (StringOf field)).

(** [handleReactHookFormChange]: the number passed to [field.onChange] for
    the text [e.target.value].  (The caret is put back on the next animation
    frame; that acts on the document only.) *)
Definition handleReactHookFormChange (cfg : Config) (userInput : jsstring)
  : completion number :=
  formattedValue <- formatCurrency cfg (VStr userInput) ;;
  let parsedValue := parseCurrency cfg formattedValue in
  Normal (parseFloat parsedValue).

(** * The specification's vocabulary *)

(** The zero sentinel: ["0"], the decimal separator, [decimalLength] times
    ["0"]. *)
Definition zeroString (cfg : Config) : jsstring :=
  "0" :: sepChar (decimalSeparator cfg) :: zeros (decimalLength cfg).

(** Groups of a separator and three digits, to the end of the string. *)
Fixpoint groupsTail (ts : ascii) (l : jsstring) : bool :=
  match l with
  | [] => true
  | c :: d1 :: d2 :: d3 :: r =>
      Ascii.eqb c ts && isDigit d1 && isDigit d2 && isDigit d3
      && groupsTail ts r
  | _ => false
  end.

(** An integer part grouped from the right: one to three digits, then
    groups of the separator and three digits. *)
Definition groupedInteger (ts : ascii) (l : jsstring) : bool :=
  match l with
  | d1 :: r1 =>
      isDigit d1
      && (groupsTail ts r1
          || match r1 with
             | d2 :: r2 =>
                 isDigit d2
                 && (groupsTail ts r2
                     || match r2 with
                        | d3 :: r3 => isDigit d3 && groupsTail ts r3
                        | [] => false
                        end)
             | [] => false
             end)
  | [] => false
  end.

(** The DisplayString pattern: a grouped integer part, followed, exactly
    when [decimalLength > 0], by the decimal separator and exactly
    [decimalLength] digits. *)
Definition displayString (cfg : Config) (s : jsstring) : bool :=
  let f := Z.to_nat (decimalLength cfg) in
  if decimalLength cfg =? 0
  then groupedInteger (sepChar (thousandSeparator cfg)) s
  else
    let k := (length s - S f)%nat in
    groupedInteger (sepChar (thousandSeparator cfg)) (firstn k s)
    && match skipn k s with
       | c :: ds =>
           Ascii.eqb c (sepChar (decimalSeparator cfg))
           && forallb isDigit ds && Nat.eqb (length ds) f
       | [] => false
       end.

(** The parser in the specification's words, one character at a time: a
    thousand separator is removed, a decimal separator becomes ["."],
    anything else is kept. *)
Definition parseChar (cfg : Config) (c : ascii) : jsstring :=
  if Ascii.eqb c (sepChar (thousandSeparator cfg)) then []
  else if Ascii.eqb c (sepChar (decimalSeparator cfg)) then ["."]
  else [c].

Definition parseSpec (cfg : Config) (s : jsstring) : jsstring :=
  flat_map (parseChar cfg) s.

Fixpoint untilChar (c : ascii) (s : jsstring) : jsstring :=
  match s with
  | [] => []
  | x :: r => if Ascii.eqb x c then [] else x :: untilChar c r
  end.

(** The prefix of [s] that ends just before the second occurrence of
    [c]. *)
Fixpoint beforeSecond (c : ascii) (s : jsstring) : jsstring :=
  match s with
  | [] => []
  | x :: r =>
      if Ascii.eqb x c then x :: untilChar c r else x :: beforeSecond c r
  end.

(** A non-negative number rounded to [f] fractional digits: the Number
    value of [n / 10^f], where [n] is the number times [10^f] rounded to
    the nearest integer, halves upwards. *)
Definition roundToDigits (x : number) (f : Z) : number :=
  match x with
  | Finite _ w => round_decimal false (fixedInteger w f) (- f)
  | _ => x
  end.

(** [Number::toString] writes the magnitude [w] without an exponent: the
    decimal point of its shortest decimal is at [-5 <= n <= 21]. *)
Definition plainNotation (w : Z) : bool :=
  (w =? 0)
  || (let (s, e) := shortest w in
      let n := e + Z.of_nat (length (digitsOf s)) in
      (-5 <=? n) && (n <=? 21)).

(** The numeric content of an input is below [10^21], so that [toFixed]
    prints it in fixed notation. *)
Definition belowFixedLimit (x : number) : bool :=
  match x with
  | Finite _ w => scaled w <? 10 ^ 21 * unit_scale
  | _ => false
  end.

(** The inputs on which the formatter prints fixed notation: the digits
    kept from the input denote a number below [10^21], or they denote no
    number and there is at least one decimal. *)
Definition rendersFixed (cfg : Config) (s : jsstring) : bool :=
  match numberValue cfg s with
  | NaN => 0 <? decimalLength cfg
  | x => belowFixedLimit x
  end.

Definition containsChar (c : ascii) (s : jsstring) : bool :=
  existsb (Ascii.eqb c) s.

Definition occurrences (c : ascii) (s : jsstring) : nat :=
  length (filter (Ascii.eqb c) s).

(** Only digits and the character [c]. *)
Definition digitsAnd (c : ascii) (s : jsstring) : bool :=
  forallb (fun x => isDigit x || Ascii.eqb x c) s.

Definition startsWithDigit (s : jsstring) : bool :=
  match s with
  | d :: _ => isDigit d
  | [] => false
  end.

(** * Vocabulary of the proofs *)

Definition allDigits (l : jsstring) : Prop :=
  Forall (fun c => isDigit c = true) l.

(** [digitsValue] with an accumulator. *)
Definition digitsFrom (a : Z) (l : jsstring) : Z :=
  fold_left (fun acc c => 10 * acc + digitValue c) l a.

(** The text after the digits read: nothing, or a character that is
    neither a digit nor an exponent indicator. *)
Definition stopsLiteral (rest : jsstring) : Prop :=
  match rest with
  | [] => True
  | c :: _ =>
      isDigit c = false /\ Ascii.eqb c "e" = false /\ Ascii.eqb c "E" = false
  end.

(** A digit or the decimal point. *)
Definition plainChar (x : ascii) : bool := isDigit x || Ascii.eqb x ".".

(** The encodings of [1] and of [10^21]. *)
Definition one_bits : Z := 1023 * 2 ^ 52.

Definition limit_bits : Z := 4921056587992461136.

(** A decimal that is at least [10^-6]. *)
Definition atLeastMicro (s e : Z) : Prop :=
  1 <= s /\ (e <= -6 -> 10 ^ (-6 - e) <= s).

(** * Properties of the built-ins *)

(** ** Characters and digits *)

Ltac ascii_cases c :=
  destruct c as [[] [] [] [] [] [] [] []]; try reflexivity; try discriminate.

Lemma digit_is_word (c : ascii) : isDigit c = true -> isWordChar c = true.
Proof. ascii_cases c. Qed.

Lemma digit_not_space (c : ascii) :
  isDigit c = true -> isWhiteSpace c = false.
Proof. ascii_cases c. Qed.

Lemma digit_range (c : ascii) :
  isDigit c = true -> 0 <= digitValue c <= 9.
Proof.
  unfold isDigit, digitValue. intros H.
  apply andb_prop in H. destruct H as [H1 H2].
  apply N.leb_le in H1, H2. lia.
Qed.

Lemma digitChar_digit (d : Z) : 0 <= d <= 9 -> isDigit (digitChar d) = true.
Proof.
  intros H.
  assert (C : d = 0 \/ d = 1 \/ d = 2 \/ d = 3 \/ d = 4 \/ d = 5 \/ d = 6
              \/ d = 7 \/ d = 8 \/ d = 9) by lia.
  repeat (destruct C as [-> | C]; [reflexivity |]). subst. reflexivity.
Qed.

Lemma digitChar_value (d : Z) : 0 <= d <= 9 -> digitValue (digitChar d) = d.
Proof.
  intros H.
  assert (C : d = 0 \/ d = 1 \/ d = 2 \/ d = 3 \/ d = 4 \/ d = 5 \/ d = 6
              \/ d = 7 \/ d = 8 \/ d = 9) by lia.
  repeat (destruct C as [-> | C]; [reflexivity |]). subst. reflexivity.
Qed.

Lemma allDigits_app (a b : jsstring) :
  allDigits a -> allDigits b -> allDigits (a ++ b).
Proof. intros; apply Forall_app; split; assumption. Qed.

Lemma allDigits_zeros (n : Z) : allDigits (zeros n).
Proof.
  unfold zeros. induction (Z.to_nat n); simpl; constructor; auto.
Qed.

Lemma digits_aux_all (fuel : nat) : forall n acc,
  0 <= n -> allDigits acc -> allDigits (digits_aux fuel n acc).
Proof.
  induction fuel as [| f IH]; intros n acc Hn Hacc; simpl.
  - constructor; [| assumption].
    apply digitChar_digit. pose proof (Z.mod_pos_bound n 10). lia.
  - destruct (n <? 10) eqn:E.
    + apply Z.ltb_lt in E. constructor; [| assumption].
      apply digitChar_digit. lia.
    + apply IH.
      * apply Z.div_pos; lia.
      * constructor; [| assumption].
        apply digitChar_digit. pose proof (Z.mod_pos_bound n 10). lia.
Qed.

Lemma digitsOf_all (n : Z) : 0 <= n -> allDigits (digitsOf n).
Proof. intros H. apply digits_aux_all; [assumption | constructor]. Qed.

Lemma digits_aux_nonempty (fuel : nat) : forall n acc,
  digits_aux fuel n acc <> [].
Proof.
  induction fuel as [| f IH]; intros n acc; simpl.
  - discriminate.
  - destruct (n <? 10); [discriminate | apply IH].
Qed.

Lemma digitsOf_nonempty (n : Z) : digitsOf n <> [].
Proof. apply digits_aux_nonempty. Qed.

Lemma digitsFrom_cons (a : Z) (c : ascii) (l : jsstring) :
  digitsFrom a (c :: l) = digitsFrom (10 * a + digitValue c) l.
Proof. reflexivity. Qed.

Lemma digitsFrom_app (a : Z) (l1 l2 : jsstring) :
  digitsFrom a (l1 ++ l2) = digitsFrom (digitsFrom a l1) l2.
Proof. apply fold_left_app. Qed.

Lemma digitsFrom_zeros (n : nat) : digitsFrom 0 (repeat "0" n) = 0.
Proof. induction n; simpl; [reflexivity | assumption]. Qed.

Lemma digitsValue_zeros_app (n : Z) (l : jsstring) :
  digitsValue (zeros n ++ l) = digitsValue l.
Proof.
  unfold digitsValue. fold (digitsFrom 0 (zeros n ++ l)).
  rewrite digitsFrom_app. unfold zeros. rewrite digitsFrom_zeros. reflexivity.
Qed.

Lemma digitsFrom_nonneg (l : jsstring) : forall a,
  0 <= a -> allDigits l -> 0 <= digitsFrom a l.
Proof.
  induction l as [| c l IH]; intros a Ha Hl; [assumption |].
  apply Forall_cons_iff in Hl. destruct Hl as [Hc Hl].
  rewrite digitsFrom_cons. apply IH; [| assumption].
  pose proof (digit_range c Hc). lia.
Qed.

Lemma digits_aux_value (fuel : nat) : forall n acc,
  0 <= n < 10 ^ (Z.of_nat fuel + 1) ->
  digitsFrom 0 (digits_aux fuel n acc) = digitsFrom n acc.
Proof.
  induction fuel as [| f IH]; intros n acc Hn.
  - change (10 ^ (Z.of_nat 0 + 1)) with 10 in Hn.
    cbn [digits_aux]. rewrite Z.mod_small by lia.
    rewrite digitsFrom_cons, digitChar_value by lia. reflexivity.
  - cbn [digits_aux]. destruct (n <? 10) eqn:E.
    + apply Z.ltb_lt in E.
      rewrite digitsFrom_cons, digitChar_value by lia. reflexivity.
    + apply Z.ltb_ge in E. rewrite IH.
      * rewrite digitsFrom_cons, digitChar_value
          by (pose proof (Z.mod_pos_bound n 10); lia).
        f_equal. pose proof (Z.div_mod n 10). lia.
      * split; [apply Z.div_pos; lia |].
        apply Z.div_lt_upper_bound; [lia |].
        replace (Z.of_nat (S f) + 1) with (Z.succ (Z.of_nat f + 1)) in Hn
          by lia.
        rewrite Z.pow_succ_r in Hn by lia. lia.
Qed.

Lemma digitsOf_value (n : Z) : 0 <= n -> digitsValue (digitsOf n) = n.
Proof.
  intros Hn. unfold digitsValue, digitsOf.
  fold (digitsFrom 0 (digits_aux (Z.to_nat (Z.log2 n)) n [])).
  rewrite digits_aux_value; [reflexivity |].
  split; [assumption |].
  destruct (Z.eq_dec n 0) as [-> | Hz]; [reflexivity |].
  rewrite Z2Nat.id by apply Z.log2_nonneg.
  pose proof (Z.log2_spec n ltac:(lia)) as [_ Hu].
  replace (Z.succ (Z.log2 n)) with (Z.log2 n + 1) in Hu by lia.
  eapply Z.lt_le_trans; [exact Hu |].
  apply Z.pow_le_mono_l. lia.
Qed.

(** ** The binary64 encoding is ordered like the magnitudes *)

Lemma scaled_succ (w : Z) : 0 <= w -> scaled w < scaled (w + 1).
Proof.
  intros Hw. unfold scaled, expo_field, frac_field.
  remember (2 ^ 52) as B eqn:HB.
  assert (HBpos : 0 < B) by (subst B; reflexivity).
  pose proof (Z.div_mod w B ltac:(lia)) as Hdm.
  pose proof (Z.mod_pos_bound w B HBpos) as Hm.
  assert (HE : 0 <= w / B) by (apply Z.div_pos; lia).
  destruct (Z.eq_dec (w mod B) (B - 1)) as [Hlast | Hnot].
  - assert (Hq : (w + 1) / B = w / B + 1)
      by (symmetry; apply Z.div_unique with (r := 0); lia).
    assert (Hr : (w + 1) mod B = 0)
      by (symmetry; apply Z.mod_unique with (q := w / B + 1); lia).
    rewrite Hq, Hr, Hlast.
    destruct (w / B =? 0) eqn:E0; destruct (w / B + 1 =? 0) eqn:E1;
      try (apply Z.eqb_eq in E1; lia).
    + apply Z.eqb_eq in E0. rewrite E0. simpl. lia.
    + replace (w / B + 1 - 1) with (Z.succ (w / B - 1)) by lia.
      apply Z.eqb_neq in E0.
      rewrite Z.pow_succ_r by lia.
      assert (0 < 2 ^ (w / B - 1)) by (apply Z.pow_pos_nonneg; lia).
      nia.
  - assert (Hq : (w + 1) / B = w / B)
      by (symmetry; apply Z.div_unique with (r := w mod B + 1); lia).
    assert (Hr : (w + 1) mod B = w mod B + 1)
      by (symmetry; apply Z.mod_unique with (q := w / B); lia).
    rewrite Hq, Hr.
    destruct (w / B =? 0) eqn:E0; [lia |].
    apply Z.eqb_neq in E0.
    assert (0 < 2 ^ (w / B - 1)) by (apply Z.pow_pos_nonneg; lia).
    nia.
Qed.

Lemma scaled_lt_steps (n : nat) : forall a,
  0 <= a -> scaled a < scaled (a + Z.of_nat (S n)).
Proof.
  induction n as [| n IH]; intros a Ha.
  - apply scaled_succ; assumption.
  - replace (a + Z.of_nat (S (S n))) with (a + Z.of_nat (S n) + 1) by lia.
    eapply Z.lt_trans; [apply IH; assumption |].
    apply scaled_succ. lia.
Qed.

Lemma scaled_lt (a b : Z) : 0 <= a -> a < b -> scaled a < scaled b.
Proof.
  intros Ha Hab.
  replace b with (a + Z.of_nat (S (Z.to_nat (b - a - 1)))) by lia.
  apply scaled_lt_steps; assumption.
Qed.

Lemma scaled_le (a b : Z) : 0 <= a -> a <= b -> scaled a <= scaled b.
Proof.
  intros Ha Hab. destruct (Z.eq_dec a b) as [-> | Hne]; [lia |].
  apply Z.lt_le_incl, scaled_lt; lia.
Qed.

(** Comparing magnitudes compares encodings. *)
Lemma scaled_lt_inv (a b : Z) :
  0 <= a -> 0 <= b -> scaled a < scaled b -> a < b.
Proof.
  intros Ha Hb H. destruct (Z_lt_le_dec a b) as [Hlt | Hge]; [assumption |].
  pose proof (scaled_le b a Hb Hge). lia.
Qed.

Lemma scaled_nonneg (w : Z) : 0 <= w -> 0 <= scaled w.
Proof.
  intros Hw. change 0 with (scaled 0) at 1. apply scaled_le; lia.
Qed.

(** ** Rounding a ratio to a Number *)

Lemma floor_bits_spec (fuel : nat) : forall p q acc,
  0 <= acc <= inf_bits ->
  scaled acc * q <= p * unit_scale ->
  (acc + 2 ^ Z.of_nat fuel <= inf_bits ->
   p * unit_scale < scaled (acc + 2 ^ Z.of_nat fuel) * q) ->
  let r := floor_bits fuel p q acc in
  acc <= r <= inf_bits
  /\ scaled r * q <= p * unit_scale
  /\ (r + 1 <= inf_bits -> p * unit_scale < scaled (r + 1) * q).
Proof.
  induction fuel as [| k IH]; intros p q acc Hacc Hle Hup; cbn [floor_bits].
  - cbv zeta. change (2 ^ Z.of_nat 0) with 1 in Hup. repeat split; lia || auto.
  - cbv zeta.
    assert (Hpow : 2 ^ Z.of_nat (S k) = 2 ^ Z.of_nat k + 2 ^ Z.of_nat k).
    { rewrite Nat2Z.inj_succ, Z.pow_succ_r by lia. lia. }
    assert (Hpos : 0 < 2 ^ Z.of_nat k) by (apply Z.pow_pos_nonneg; lia).
    destruct ((acc + 2 ^ Z.of_nat k <=? inf_bits)
              && (scaled (acc + 2 ^ Z.of_nat k) * q <=? p * unit_scale))
      eqn:E.
    + apply andb_prop in E. destruct E as [E1 E2].
      apply Z.leb_le in E1, E2.
      specialize (IH p q (acc + 2 ^ Z.of_nat k)).
      cbv zeta in IH.
      destruct IH as (H1 & H2 & H3); [lia | assumption | |].
      * intros H. rewrite <- Z.add_assoc, <- Hpow. apply Hup.
        rewrite Hpow. lia.
      * repeat split; lia || auto.
    + specialize (IH p q acc). cbv zeta in IH.
      apply IH; [assumption | assumption |].
      intros H. apply andb_false_iff in E. destruct E as [E | E].
      * apply Z.leb_gt in E. lia.
      * apply Z.leb_gt in E. assumption.
Qed.

(** The encoding found is the floor of [p/q] among the magnitudes. *)
Lemma floor_bits_floor (p q : Z) :
  0 <= p -> 0 < q ->
  let r := floor_bits 63 p q 0 in
  0 <= r <= inf_bits
  /\ scaled r * q <= p * unit_scale
  /\ (r + 1 <= inf_bits -> p * unit_scale < scaled (r + 1) * q).
Proof.
  intros Hp Hq.
  apply (floor_bits_spec 63 p q 0).
  - unfold inf_bits. lia.
  - change (scaled 0) with 0. unfold unit_scale.
    assert (0 < 2 ^ 1074) by (apply Z.pow_pos_nonneg; lia). nia.
  - intros H. exfalso. revert H. unfold inf_bits.
    change (Z.of_nat 63) with 63.
    change (2 ^ 63) with (2048 * 2 ^ 52).
    assert (0 < 2 ^ 52) by reflexivity. lia.
Qed.

Lemma unit_scale_pos : 0 < unit_scale.
Proof. unfold unit_scale. apply Z.pow_pos_nonneg; lia. Qed.

(** What [round_ratio] returns lies next to the floor. *)
Lemma round_ratio_finite (neg neg' : bool) (p q w : Z) :
  0 <= p -> 0 < q ->
  round_ratio neg p q = Finite neg' w ->
  neg' = neg /\ w < inf_bits
  /\ exists r, 0 <= r /\ r <= w <= r + 1
       /\ scaled r * q <= p * unit_scale
       /\ p * unit_scale < scaled (r + 1) * q.
Proof.
  intros Hp Hq. unfold round_ratio.
  pose proof (floor_bits_floor p q Hp Hq) as H. cbv zeta in H.
  destruct H as (Hr & Hlo & Hhi).
  set (lo := floor_bits 63 p q 0) in *.
  destruct (lo =? inf_bits) eqn:E; [discriminate |].
  apply Z.eqb_neq in E.
  match goal with
  | |- context [if ?r =? inf_bits then _ else _] => set (res := r)
  end.
  destruct (res =? inf_bits) eqn:E2; [discriminate |].
  apply Z.eqb_neq in E2.
  intros Heq. injection Heq as -> <-.
  assert (Hres : lo <= res <= lo + 1).
  { subst res. destruct (_ ?= _); [destruct (Z.even lo) | |]; lia. }
  split; [reflexivity |]. split; [lia |].
  exists lo. repeat split; lia.
Qed.

(** A magnitude rounds to itself. *)
Lemma round_ratio_exact (neg : bool) (w : Z) :
  0 <= w < inf_bits ->
  round_ratio neg (scaled w) unit_scale = Finite neg w.
Proof.
  intros Hw. unfold round_ratio.
  pose proof (scaled_nonneg w ltac:(lia)) as Hs.
  pose proof unit_scale_pos as Hu.
  pose proof (floor_bits_floor (scaled w) unit_scale Hs Hu) as H.
  cbv zeta in H. destruct H as (Hr & Hlo & Hhi).
  set (lo := floor_bits 63 (scaled w) unit_scale 0) in *.
  assert (Hlow : lo = w).
  { assert (scaled lo <= scaled w) by nia.
    destruct (Z_lt_le_dec w lo) as [Hlt | Hge].
    - pose proof (scaled_lt w lo ltac:(lia) Hlt). lia.
    - destruct (Z.eq_dec lo w) as [-> | Hne]; [reflexivity |].
      assert (Hlt : lo + 1 <= w) by lia.
      pose proof (scaled_le (lo + 1) w ltac:(lia) Hlt).
      specialize (Hhi ltac:(lia)). nia. }
  rewrite Hlow.
  destruct (w =? inf_bits) eqn:E; [apply Z.eqb_eq in E; lia |].
  pose proof (scaled_succ w ltac:(lia)) as Hsucc.
  assert (Hc : (2 * (scaled w * unit_scale)
                ?= (scaled w + scaled (w + 1)) * unit_scale) = Lt)
    by (apply Z.compare_lt_iff; nia).
  rewrite Hc, E. reflexivity.
Qed.

Lemma floor_bits_scale (c : Z) (fuel : nat) : forall p q acc,
  0 < c -> floor_bits fuel (p * c) (q * c) acc = floor_bits fuel p q acc.
Proof.
  induction fuel as [| k IH]; intros p q acc Hc; cbn [floor_bits];
    [reflexivity |].
  cbv zeta.
  assert (E : forall s, (s * (q * c) <=? p * c * unit_scale)
                        = (s * q <=? p * unit_scale)).
  { intros s. apply eq_true_iff_eq. rewrite !Z.leb_le. split; intros H; nia. }
  rewrite E. destruct (_ && _); apply IH; assumption.
Qed.

(** The Number value depends on the ratio only. *)
Lemma round_ratio_scale (neg : bool) (p q c : Z) :
  0 < c -> round_ratio neg (p * c) (q * c) = round_ratio neg p q.
Proof.
  intros Hc. unfold round_ratio.
  rewrite floor_bits_scale by assumption.
  generalize (floor_bits 63 p q 0) as lo. intros lo.
  generalize (scaled lo + scaled (lo + 1)) as m. intros m.
  generalize unit_scale as u. intros u.
  replace (2 * (p * c * u)) with (2 * (p * u) * c) by ring.
  replace (m * (q * c)) with (m * q * c) by ring.
  rewrite <- Zmult_compare_compat_r by lia. reflexivity.
Qed.

Lemma pow10_pos (n : Z) : 0 <= n -> 0 < 10 ^ n.
Proof. intros. apply Z.pow_pos_nonneg; lia. Qed.

(** [m * 10^e] as a ratio over any large enough power of ten. *)
Lemma round_decimal_ratio (neg : bool) (m e t : Z) :
  0 <= t -> 0 <= e + t ->
  round_decimal neg m e = round_ratio neg (m * 10 ^ (e + t)) (10 ^ t).
Proof.
  intros Ht Het. unfold round_decimal.
  destruct (0 <=? e) eqn:E.
  - apply Z.leb_le in E.
    rewrite Z.pow_add_r by lia.
    rewrite <- (round_ratio_scale neg (m * 10 ^ e) 1 (10 ^ t))
      by (apply pow10_pos; lia).
    f_equal; ring.
  - apply Z.leb_gt in E.
    rewrite <- (round_ratio_scale neg m (10 ^ (- e)) (10 ^ (e + t)))
      by (apply pow10_pos; lia).
    f_equal. rewrite <- Z.pow_add_r by lia. f_equal. lia.
Qed.

Lemma round_decimal_shift (neg : bool) (m e d : Z) :
  0 <= d -> round_decimal neg (m * 10 ^ d) e = round_decimal neg m (e + d).
Proof.
  intros Hd.
  rewrite (round_decimal_ratio neg (m * 10 ^ d) e (Z.abs e)) by lia.
  rewrite (round_decimal_ratio neg m (e + d) (Z.abs e)) by lia.
  f_equal. rewrite <- Z.mul_assoc, <- Z.pow_add_r by lia. f_equal. f_equal. lia.
Qed.

(** The exact decimal expansion of a magnitude rounds to it. *)
Lemma round_decimal_exact (neg : bool) (w : Z) :
  0 <= w < inf_bits ->
  round_decimal neg (scaled w * 5 ^ 1074) (-1074) = Finite neg w.
Proof.
  intros Hw. unfold round_decimal.
  change (0 <=? -1074) with false. cbv iota.
  change (- -1074) with 1074.
  replace (10 ^ 1074) with (unit_scale * 5 ^ 1074).
  - rewrite round_ratio_scale by (apply Z.pow_pos_nonneg; lia).
    apply round_ratio_exact; assumption.
  - unfold unit_scale. rewrite <- Z.pow_mul_l. reflexivity.
Qed.

(** ** The shortest decimal of a magnitude rounds back to it *)

Lemma number_eqb_eq (x y : number) : number_eqb x y = true -> x = y.
Proof.
  destruct x as [| a | a v], y as [| b | b w]; simpl; try discriminate.
  - reflexivity.
  - intros H. apply eqb_prop in H. congruence.
  - intros H. apply andb_prop in H. destruct H as [H1 H2].
    apply eqb_prop in H1. apply Z.eqb_eq in H2. congruence.
Qed.

Lemma choose_ok (w e p q s e' : Z) :
  choose w e p q = Some (s, e') ->
  round_decimal false s e' = Finite false w
  /\ (0 <= p -> 0 < q -> 0 <= s).
Proof.
  unfold choose, nearer.
  assert (Hlo : 0 <= p -> 0 < q -> 0 <= p / q)
    by (intros; apply Z.div_pos; lia).
  revert Hlo. generalize (p / q) as lo. intros lo Hlo.
  assert (Hhi : 0 <= p -> 0 < q ->
                0 <= (if p mod q =? 0 then lo else lo + 1))
    by (intros H1 H2; specialize (Hlo H1 H2); destruct (_ =? _); lia).
  revert Hhi. generalize (if p mod q =? 0 then lo else lo + 1) as hi.
  intros hi Hhi. unfold roundsTo.
  destruct (number_eqb (round_decimal false lo e) (Finite false w)) eqn:Elo;
    destruct (number_eqb (round_decimal false hi e) (Finite false w)) eqn:Ehi;
    try discriminate;
    try apply number_eqb_eq in Elo; try apply number_eqb_eq in Ehi;
    intros H; injection H as <- <-.
  - destruct (_ ?= _); try destruct (Z.even lo); split; assumption.
  - split; assumption.
  - split; assumption.
Qed.

Lemma candidate_ok (w n0 k s e : Z) :
  0 <= w ->
  candidate w n0 k = Some (s, e) ->
  round_decimal false s e = Finite false w /\ 0 <= s.
Proof.
  intros Hw. unfold candidate. cbv zeta.
  pose proof (scaled_nonneg w Hw) as HV.
  pose proof unit_scale_pos as Hu.
  destruct (0 <=? n0 - k) eqn:E; intros H; apply choose_ok in H;
    destruct H as [H1 H2]; (split; [assumption |]); apply H2.
  - assumption.
  - apply Z.leb_le in E. pose proof (pow10_pos (n0 - k) E). nia.
  - apply Z.leb_gt in E.
    pose proof (pow10_pos (- (n0 - k)) ltac:(lia)). nia.
  - assumption.
Qed.

Lemma shortest_from_ok (fuel : nat) : forall w n0 k s e,
  0 <= w < inf_bits ->
  shortest_from fuel w n0 k = (s, e) ->
  round_decimal false s e = Finite false w /\ 0 <= s.
Proof.
  induction fuel as [| f IH]; intros w n0 k s e Hw; cbn [shortest_from].
  - intros H. injection H as <- <-. split.
    + apply round_decimal_exact; assumption.
    + pose proof (scaled_nonneg w ltac:(lia)).
      assert (0 < 5 ^ 1074) by (apply Z.pow_pos_nonneg; lia). nia.
  - destruct (candidate w n0 k) as [[s' e'] |] eqn:E.
    + intros H. injection H as <- <-.
      eapply candidate_ok; [| eassumption]. lia.
    + apply IH; assumption.
Qed.

Lemma strip_zeros_spec (fuel : nat) : forall s e s' e',
  strip_zeros fuel s e = (s', e') ->
  exists d, 0 <= d /\ s = s' * 10 ^ d /\ e' = e + d.
Proof.
  induction fuel as [| f IH]; intros s e s' e'; cbn [strip_zeros].
  - intros H. injection H as <- <-. exists 0.
    rewrite Z.pow_0_r. repeat split; lia.
  - destruct ((0 <? s) && (s mod 10 =? 0)) eqn:E.
    + apply andb_prop in E. destruct E as [_ E]. apply Z.eqb_eq in E.
      intros H. apply IH in H. destruct H as (d & Hd & Hs & He).
      exists (d + 1). rewrite Z.pow_add_r, Z.pow_1_r by lia.
      pose proof (Z.div_mod s 10 ltac:(lia)). repeat split; lia.
    + intros H. injection H as <- <-. exists 0.
      rewrite Z.pow_0_r. repeat split; lia.
Qed.

Lemma shortest_ok (w s e : Z) :
  0 <= w < inf_bits ->
  shortest w = (s, e) ->
  round_decimal false s e = Finite false w /\ 0 <= s.
Proof.
  intros Hw. unfold shortest.
  destruct (shortest_from 770 w (decade (scaled w)) 1) as [s0 e0] eqn:E.
  apply shortest_from_ok in E; [| assumption]. destruct E as [Hr Hs0].
  intros H. apply strip_zeros_spec in H. destruct H as (d & Hd & Hs & He).
  subst s0 e. split.
  - rewrite <- round_decimal_shift by assumption. assumption.
  - pose proof (pow10_pos d Hd). nia.
Qed.

(** ** parseFloat on digits and a decimal point *)

Lemma span_digits (a rest : jsstring) :
  allDigits a ->
  match rest with [] => True | c :: _ => isDigit c = false end ->
  span isDigit (a ++ rest) = (a, rest).
Proof.
  intros Ha Hr. induction Ha as [| c a Hc Ha IH]; simpl.
  - destruct rest as [| c r]; [reflexivity |]. simpl. rewrite Hr. reflexivity.
  - rewrite Hc, IH. reflexivity.
Qed.

Lemma span_digits_all (a : jsstring) :
  allDigits a -> span isDigit a = (a, []).
Proof.
  intros Ha. rewrite <- (app_nil_r a) at 1.
  apply span_digits; [assumption | exact I].
Qed.

Lemma splitSign_digit (d : ascii) (l : jsstring) :
  isDigit d = true -> splitSign (d :: l) = (false, d :: l).
Proof. intros H. ascii_cases d. Qed.

Lemma splitSign_dot (l : jsstring) : splitSign ("." :: l) = (false, "." :: l).
Proof. reflexivity. Qed.

Lemma not_infinity_digit (d : ascii) (l : jsstring) :
  isDigit d = true -> startsWith (str "Infinity") (d :: l) = false.
Proof. intros H. ascii_cases d. Qed.

Lemma parseExponent_stops (rest : jsstring) :
  stopsLiteral rest -> parseExponent rest = 0.
Proof.
  destruct rest as [| c r]; [reflexivity |].
  intros (_ & He & HE). unfold parseExponent. rewrite He, HE. reflexivity.
Qed.

Lemma stopsLiteral_digit (rest : jsstring) :
  stopsLiteral rest ->
  match rest with [] => True | c :: _ => isDigit c = false end.
Proof. destruct rest; [trivial | intros (H & _); exact H]. Qed.

(** A string that starts with a digit is read as an unsigned literal. *)
Lemma parseFloat_digit_first (d : ascii) (l : jsstring) :
  isDigit d = true -> parseFloat (d :: l) = decimalPrefixValue false (d :: l).
Proof.
  intros H. unfold parseFloat. cbn [dropWhile].
  rewrite (digit_not_space d H), (splitSign_digit d l H).
  rewrite (not_infinity_digit d l H). reflexivity.
Qed.

Lemma decimalPrefixValue_fraction (neg : bool) (a b rest : jsstring) :
  a <> [] -> allDigits a -> allDigits b -> stopsLiteral rest ->
  decimalPrefixValue neg (a ++ "." :: b ++ rest)
  = round_decimal neg (digitsValue (a ++ b)) (- Z.of_nat (length b)).
Proof.
  intros Hne Ha Hb Hrest. unfold decimalPrefixValue.
  rewrite (span_digits a ("." :: b ++ rest) Ha eq_refl).
  rewrite (span_digits b rest Hb (stopsLiteral_digit rest Hrest)).
  rewrite (parseExponent_stops rest Hrest).
  destruct a as [| d a]; [contradiction |]. reflexivity.
Qed.

Lemma decimalPrefixValue_integer (neg : bool) (a rest : jsstring) :
  a <> [] -> allDigits a -> stopsLiteral rest ->
  match rest with "." :: _ => False | _ => True end ->
  decimalPrefixValue neg (a ++ rest) = round_decimal neg (digitsValue a) 0.
Proof.
  intros Hne Ha Hrest Hdot. unfold decimalPrefixValue.
  rewrite (span_digits a rest Ha (stopsLiteral_digit rest Hrest)).
  assert (E : match rest with
              | "." :: r => span isDigit r
              | _ => ([], rest)
              end = ([], rest)).
  { destruct rest as [| c r]; [reflexivity |]. revert Hdot.
    ascii_cases c. contradiction. }
  rewrite E, (parseExponent_stops rest Hrest), app_nil_r.
  destruct a as [| d a]; [contradiction |]. reflexivity.
Qed.

Lemma parseFloat_fraction (a b rest : jsstring) :
  a <> [] -> allDigits a -> allDigits b -> stopsLiteral rest ->
  parseFloat (a ++ "." :: b ++ rest)
  = round_decimal false (digitsValue (a ++ b)) (- Z.of_nat (length b)).
Proof.
  intros Hne Ha Hb Hrest.
  destruct a as [| d a]; [contradiction |].
  apply Forall_cons_iff in Ha. destruct Ha as [Hd Ha].
  change ((d :: a) ++ "." :: b ++ rest) with (d :: a ++ "." :: b ++ rest).
  rewrite parseFloat_digit_first by assumption.
  apply (decimalPrefixValue_fraction false (d :: a) b rest);
    [discriminate | constructor; assumption | assumption | assumption].
Qed.

Lemma parseFloat_integer (a : jsstring) :
  a <> [] -> allDigits a ->
  parseFloat a = round_decimal false (digitsValue a) 0.
Proof.
  intros Hne Ha.
  destruct a as [| d a]; [contradiction |].
  pose proof Ha as Ha'. apply Forall_cons_iff in Ha'. destruct Ha' as [Hd _].
  rewrite parseFloat_digit_first by assumption.
  rewrite <- (app_nil_r (d :: a)) at 1.
  apply decimalPrefixValue_integer; [discriminate | assumption | exact I | exact I].
Qed.

(** ** parseFloat reads back what toString writes in plain notation *)

Lemma digitsFrom_zeros_r (n : nat) : forall a,
  digitsFrom a (repeat "0" n) = a * 10 ^ Z.of_nat n.
Proof.
  induction n as [| n IH]; intros a.
  - simpl. lia.
  - cbn [repeat]. rewrite digitsFrom_cons, IH.
    change (digitValue "0") with 0.
    rewrite Nat2Z.inj_succ, Z.pow_succ_r by lia. ring.
Qed.

Lemma digitsValue_app_zeros (l : jsstring) (n : Z) :
  0 <= n -> digitsValue (l ++ zeros n) = digitsValue l * 10 ^ n.
Proof.
  intros Hn. unfold digitsValue. fold (digitsFrom 0 (l ++ zeros n)).
  rewrite digitsFrom_app. unfold zeros. rewrite digitsFrom_zeros_r.
  rewrite Z2Nat.id by assumption. reflexivity.
Qed.

Lemma zeros_length (n : Z) : length (zeros n) = Z.to_nat n.
Proof. apply repeat_length. Qed.

Lemma allDigits_split (n : nat) (l : jsstring) :
  allDigits l -> allDigits (firstn n l) /\ allDigits (skipn n l).
Proof.
  intros H. rewrite <- (firstn_skipn n l) in H.
  apply Forall_app in H. exact H.
Qed.

Lemma firstn_nonempty (n : nat) (l : jsstring) :
  (0 < n)%nat -> l <> [] -> firstn n l <> [].
Proof.
  intros Hn Hl. destruct n; [lia |].
  destruct l; [contradiction | discriminate].
Qed.

Lemma renderDecimal_parse (s e : Z) :
  0 <= s ->
  (let n := e + Z.of_nat (length (digitsOf s)) in
   (-5 <=? n) && (n <=? 21) = true) ->
  parseFloat (renderDecimal s e) = round_decimal false s e.
Proof.
  intros Hs. cbv zeta. intros Hn. unfold renderDecimal. rewrite Hn.
  pose proof (digitsOf_all s Hs) as Hall.
  pose proof (digitsOf_nonempty s) as Hne.
  pose proof (digitsOf_value s Hs) as Hval.
  set (ds := digitsOf s) in *.
  set (k := Z.of_nat (length ds)) in *.
  destruct (k <=? e + k) eqn:E1.
  - apply Z.leb_le in E1.
    rewrite parseFloat_integer.
    + rewrite digitsValue_app_zeros by lia. rewrite Hval.
      rewrite round_decimal_shift by lia. f_equal. lia.
    + destruct ds; [contradiction | discriminate].
    + apply allDigits_app; [assumption | apply allDigits_zeros].
  - apply Z.leb_gt in E1. destruct (0 <? e + k) eqn:E2.
    + apply Z.ltb_lt in E2.
      rewrite <- (app_nil_r (skipn (Z.to_nat (e + k)) ds)).
      rewrite parseFloat_fraction.
      * rewrite firstn_skipn, Hval. f_equal.
        rewrite length_skipn. subst k. lia.
      * apply firstn_nonempty; [lia | assumption].
      * apply allDigits_split. assumption.
      * apply allDigits_split. assumption.
      * exact I.
    + apply Z.ltb_ge in E2.
      change ("0" :: "." :: zeros (- (e + k)) ++ ds)
        with (["0"] ++ "." :: (zeros (- (e + k)) ++ ds)).
      rewrite <- (app_nil_r (zeros (- (e + k)) ++ ds)).
      rewrite parseFloat_fraction.
      * change (["0"] ++ zeros (- (e + k)) ++ ds)
          with (zeros 1 ++ zeros (- (e + k)) ++ ds).
        rewrite !digitsValue_zeros_app, Hval. f_equal.
        rewrite length_app, zeros_length. subst k. lia.
      * discriminate.
      * constructor; [reflexivity | constructor].
      * apply allDigits_app; [apply allDigits_zeros | assumption].
      * exact I.
Qed.

Lemma toString_parse (w : Z) :
  0 <= w < inf_bits ->
  plainNotation w = true ->
  parseFloat (toString (Finite false w)) = Finite false w.
Proof.
  intros Hw Hp. unfold toString.
  destruct (w =? 0) eqn:E.
  - apply Z.eqb_eq in E. rewrite E. vm_compute. reflexivity.
  - unfold plainNotation in Hp. rewrite E in Hp.
    rewrite orb_false_l in Hp.
    destruct (shortest w) as [s e] eqn:Es.
    destruct (shortest_ok w s e Hw Es) as [Hr Hs].
    rewrite app_nil_l, renderDecimal_parse; assumption.
Qed.

(** ** toFixed prints digits, a point and [f] digits *)

Lemma fixedInteger_nonneg (w f : Z) : 0 <= w -> 0 <= f -> 0 <= fixedInteger w f.
Proof.
  intros Hw Hf. unfold fixedInteger.
  pose proof (scaled_nonneg w Hw). pose proof unit_scale_pos.
  pose proof (pow10_pos f Hf).
  apply Z.div_pos; nia.
Qed.

Lemma fixedDigits_zero (n : Z) : fixedDigits n 0 = digitsOf n.
Proof. reflexivity. Qed.

Lemma fixedDigits_shape (n f : Z) :
  0 <= n -> 0 < f ->
  exists a b,
    fixedDigits n f = a ++ "." :: b
    /\ a <> [] /\ allDigits a /\ allDigits b
    /\ length b = Z.to_nat f /\ digitsValue (a ++ b) = n.
Proof.
  intros Hn Hf. unfold fixedDigits.
  destruct (f =? 0) eqn:E; [apply Z.eqb_eq in E; lia |].
  pose proof (digitsOf_all n Hn) as Hall.
  pose proof (digitsOf_value n Hn) as Hval.
  set (m := digitsOf n) in *.
  set (m' := if Z.of_nat (length m) <=? f
             then zeros (f + 1 - Z.of_nat (length m)) ++ m else m).
  assert (Hm' : allDigits m' /\ digitsValue m' = n
                /\ f + 1 <= Z.of_nat (length m')).
  { subst m'. destruct (Z.of_nat (length m) <=? f) eqn:Ek.
    - apply Z.leb_le in Ek. repeat split.
      + apply allDigits_app; [apply allDigits_zeros | assumption].
      + rewrite digitsValue_zeros_app. assumption.
      + rewrite length_app, zeros_length. lia.
    - apply Z.leb_gt in Ek. repeat split; try assumption. lia. }
  destruct Hm' as (Hall' & Hval' & Hlen).
  set (c := Z.to_nat (Z.of_nat (length m') - f)).
  exists (firstn c m'), (skipn c m').
  destruct (allDigits_split c m' Hall') as [Ha Hb].
  repeat split; try assumption.
  - apply firstn_nonempty; [subst c; lia |].
    destruct m'; [simpl in Hlen; lia | discriminate].
  - rewrite length_skipn. subst c. lia.
  - rewrite firstn_skipn. assumption.
Qed.

Lemma toFixed_fixed (w f : Z) :
  0 <= f <= 100 ->
  scaled w < 10 ^ 21 * unit_scale ->
  toFixed (Finite false w) f = Normal (fixedDigits (fixedInteger w f) f).
Proof.
  intros Hf Hlim. unfold toFixed.
  destruct (f <? 0) eqn:E1; [apply Z.ltb_lt in E1; lia |].
  destruct (100 <? f) eqn:E2; [apply Z.ltb_lt in E2; lia |].
  apply Z.leb_gt in Hlim. rewrite Hlim. reflexivity.
Qed.

Lemma toFixed_normal (x : number) (f : Z) :
  0 <= f <= 100 -> exists r, toFixed x f = Normal r.
Proof.
  intros Hf. unfold toFixed.
  destruct (f <? 0) eqn:E1; [apply Z.ltb_lt in E1; lia |].
  destruct (100 <? f) eqn:E2; [apply Z.ltb_lt in E2; lia |].
  eexists. reflexivity.
Qed.

(** ** replace and split *)

Lemma digit_not_dot (c : ascii) : isDigit c = true -> Ascii.eqb c "." = false.
Proof. ascii_cases c. Qed.

Lemma digit_not_sep (c : ascii) (s : Separator) :
  isDigit c = true -> Ascii.eqb c (sepChar s) = false.
Proof. destruct s; ascii_cases c. Qed.

Lemma split_digits (a : jsstring) : allDigits a -> split "." a = [a].
Proof.
  intros Ha. induction Ha as [| c a Hc Ha IH]; [reflexivity |].
  cbn [split]. rewrite (digit_not_dot c Hc), IH. reflexivity.
Qed.

Lemma split_digits_dot (a r : jsstring) :
  allDigits a -> split "." (a ++ "." :: r) = a :: split "." r.
Proof.
  intros Ha. induction Ha as [| c a Hc Ha IH]; [reflexivity |].
  cbn [split app]. rewrite (digit_not_dot c Hc), IH. reflexivity.
Qed.

Lemma split_In (c : ascii) (s : jsstring) : forall p x,
  In p (split c s) -> In x p -> In x s.
Proof.
  induction s as [| y s IH]; intros p x Hp Hx; cbn [split] in Hp.
  - destruct Hp as [<- | []]. exact Hx.
  - destruct (Ascii.eqb y c).
    + destruct Hp as [<- | Hp]; [destruct Hx |].
      right. eapply IH; eassumption.
    + destruct (split c s) as [| h t] eqn:E.
      * destruct Hp as [<- | []]. destruct Hx as [<- | []]. left. reflexivity.
      * destruct Hp as [<- | Hp].
        -- destruct Hx as [<- | Hx]; [left; reflexivity |].
           right. apply (IH h x); [left; reflexivity | exact Hx].
        -- right. apply (IH p x); [right; exact Hp | exact Hx].
Qed.

Lemma removeOutside_id (c : ascii) (s : jsstring) :
  Forall (fun x => isDigit x || Ascii.eqb x c = true) s ->
  removeOutside c s = s.
Proof.
  intros H. unfold removeOutside.
  induction H as [| x s Hx Hs IH]; [reflexivity |].
  cbn [filter]. rewrite Hx, IH. reflexivity.
Qed.

Lemma replaceChar_same (c : ascii) (s : jsstring) : replaceChar c [c] s = s.
Proof.
  unfold replaceChar. induction s as [| x s IH]; [reflexivity |].
  cbn [flat_map]. rewrite IH.
  destruct (Ascii.eqb x c) eqn:E; [apply Ascii.eqb_eq in E; subst |];
    reflexivity.
Qed.

Lemma replaceChar_absent (c : ascii) (r s : jsstring) :
  Forall (fun x => Ascii.eqb x c = false) s -> replaceChar c r s = s.
Proof.
  intros H. unfold replaceChar.
  induction H as [| x s Hx Hs IH]; [reflexivity |].
  cbn [flat_map]. rewrite Hx, IH. reflexivity.
Qed.

Lemma replaceChar_app (c : ascii) (r a b : jsstring) :
  replaceChar c r (a ++ b) = replaceChar c r a ++ replaceChar c r b.
Proof. apply flat_map_app. Qed.

Lemma replaceChar_cons (c : ascii) (r : jsstring) (x : ascii) (s : jsstring) :
  replaceChar c r (x :: s)
  = (if Ascii.eqb x c then r else [x]) ++ replaceChar c r s.
Proof. reflexivity. Qed.

(** ** The thousands regular expression on a run of digits *)

Section Thousands.

Variable sep : ascii.

Lemma insertSeparators_cons (prev : option ascii) (c : ascii)
    (l : jsstring) :
  insertSeparators sep prev (c :: l)
  = (if notWordBoundary prev (c :: l) && groupsOfThreeAhead (c :: l)
     then [sep] else [])
    ++ c :: insertSeparators sep (Some c) l.
Proof. reflexivity. Qed.

Lemma insertSeparators_nil (prev : option ascii) :
  insertSeparators sep prev [] = [].
Proof.
  cbn [insertSeparators]. unfold groupsOfThreeAhead. cbn [digitRun].
  change (Nat.ltb 0 0) with false. cbn [andb].
  rewrite andb_false_r. reflexivity.
Qed.

Lemma digitRun_all (l : jsstring) : allDigits l -> digitRun l = length l.
Proof.
  intros H. induction H as [| c l Hc Hl IH]; [reflexivity |].
  cbn [digitRun length]. rewrite Hc, IH. reflexivity.
Qed.

Lemma groupsOfThreeAhead_all (l : jsstring) :
  allDigits l ->
  groupsOfThreeAhead l
  = Nat.ltb 0 (length l) && Nat.eqb (Nat.modulo (length l) 3) 0.
Proof.
  intros H. unfold groupsOfThreeAhead. rewrite digitRun_all by assumption.
  reflexivity.
Qed.

(** Inside a run of digits the separator goes exactly where the digits that
    remain come in a multiple of three. *)
Lemma insertSeparators_inside (p c : ascii) (l : jsstring) :
  isWordChar p = true -> allDigits (c :: l) ->
  insertSeparators sep (Some p) (c :: l)
  = (if Nat.eqb (Nat.modulo (length (c :: l)) 3) 0 then [sep] else [])
    ++ c :: insertSeparators sep (Some c) l.
Proof.
  intros Hp Hall. rewrite insertSeparators_cons.
  rewrite groupsOfThreeAhead_all by assumption.
  apply Forall_cons_iff in Hall. destruct Hall as [Hc _].
  unfold notWordBoundary. rewrite Hp, (digit_is_word c Hc).
  reflexivity.
Qed.

Lemma insertSeparators_start (c : ascii) (l : jsstring) :
  isDigit c = true ->
  insertSeparators sep None (c :: l) = c :: insertSeparators sep (Some c) l.
Proof.
  intros Hc. rewrite insertSeparators_cons.
  unfold notWordBoundary. rewrite (digit_is_word c Hc). reflexivity.
Qed.

Lemma groupsTail_inserted (m : nat) : forall l p,
  length l = (3 * m)%nat -> allDigits l -> isWordChar p = true ->
  groupsTail sep (insertSeparators sep (Some p) l) = true.
Proof.
  induction m as [| m IH]; intros l p Hlen Hall Hp.
  - destruct l; [| discriminate]. rewrite insertSeparators_nil. reflexivity.
  - destruct l as [| a [| b [| c l]]]; try (simpl in Hlen; lia).
    pose proof Hall as Hall'.
    apply Forall_cons_iff in Hall'. destruct Hall' as [Ha Hall1].
    pose proof Hall1 as Hall1'.
    apply Forall_cons_iff in Hall1'. destruct Hall1' as [Hb Hall2].
    pose proof Hall2 as Hall2'.
    apply Forall_cons_iff in Hall2'. destruct Hall2' as [Hc Hall3].
    assert (Hl : length l = (3 * m)%nat) by (simpl in Hlen; lia).
    rewrite (insertSeparators_inside p a) by assumption.
    rewrite (insertSeparators_inside a b)
      by (try apply digit_is_word; assumption).
    rewrite (insertSeparators_inside b c)
      by (try apply digit_is_word; assumption).
    cbn [length]. rewrite Hl.
    replace (Nat.modulo (S (S (S (3 * m)))) 3) with 0%nat
      by (symmetry; apply Nat.Div0.mod_divides; exists (S m); lia).
    replace (Nat.modulo (S (S (3 * m))) 3) with 2%nat
      by (apply Nat.mod_unique with (q := m); lia).
    replace (Nat.modulo (S (3 * m)) 3) with 1%nat
      by (apply Nat.mod_unique with (q := m); lia).
    cbn [Nat.eqb app groupsTail].
    rewrite Ascii.eqb_refl, Ha, Hb, Hc. cbn [andb].
    apply IH; [assumption | assumption | apply digit_is_word; assumption].
Qed.

Lemma length_thirds (l : jsstring) :
  exists m,
    length l = (3 * m)%nat
    \/ (exists a r, l = a :: r /\ length r = (3 * m)%nat)
    \/ (exists a b r, l = a :: b :: r /\ length r = (3 * m)%nat).
Proof.
  exists (Nat.div (length l) 3).
  pose proof (Nat.div_mod_eq (length l) 3) as H.
  pose proof (Nat.mod_upper_bound (length l) 3 ltac:(lia)) as Hb.
  destruct (Nat.modulo (length l) 3) as [| [| [| k]]] eqn:E;
    [left; lia | | | lia].
  - right. left. destruct l as [| a r]; [cbn [length] in *; lia |].
    exists a, r. split; [reflexivity | cbn [length] in *; lia].
  - right. right.
    destruct l as [| a [| b r]]; try (cbn [length] in *; lia).
    exists a, b, r. split; [reflexivity | cbn [length] in *; lia].
Qed.

(** On the digits of an integer the regular expression yields a grouped
    integer part. *)
Lemma groupedInteger_inserted (l : jsstring) :
  l <> [] -> allDigits l ->
  groupedInteger sep (insertSeparators sep None l) = true.
Proof.
  intros Hne Hall. destruct l as [| d0 r]; [contradiction |].
  apply Forall_cons_iff in Hall. destruct Hall as [H0 Hr].
  rewrite insertSeparators_start by assumption.
  pose proof (digit_is_word d0 H0) as Hw0.
  destruct (length_thirds r) as (m & [Hm | [(a & r' & -> & Hm)
                                          | (a & b & r' & -> & Hm)]]).
  - cbn [groupedInteger]. rewrite H0.
    rewrite (groupsTail_inserted m r d0) by assumption. reflexivity.
  - pose proof Hr as Hr'.
    apply Forall_cons_iff in Hr'. destruct Hr' as [Ha Hr1].
    rewrite (insertSeparators_inside d0 a) by assumption.
    cbn [length]. rewrite Hm.
    replace (Nat.modulo (S (3 * m)) 3) with 1%nat
      by (apply Nat.mod_unique with (q := m); lia).
    cbn [Nat.eqb app groupedInteger]. rewrite H0, Ha.
    rewrite (groupsTail_inserted m r' a)
      by (try apply digit_is_word; assumption).
    cbn [andb orb]. rewrite orb_true_r. reflexivity.
  - pose proof Hr as Hr'.
    apply Forall_cons_iff in Hr'. destruct Hr' as [Ha Hr1].
    pose proof Hr1 as Hr1'.
    apply Forall_cons_iff in Hr1'. destruct Hr1' as [Hb Hr2].
    rewrite (insertSeparators_inside d0 a) by assumption.
    rewrite (insertSeparators_inside a b)
      by (try apply digit_is_word; assumption).
    cbn [length]. rewrite Hm.
    replace (Nat.modulo (S (S (3 * m))) 3) with 2%nat
      by (apply Nat.mod_unique with (q := m); lia).
    replace (Nat.modulo (S (3 * m)) 3) with 1%nat
      by (apply Nat.mod_unique with (q := m); lia).
    cbn [Nat.eqb app groupedInteger]. rewrite H0, Ha, Hb.
    rewrite (groupsTail_inserted m r' b)
      by (try apply digit_is_word; assumption).
    cbn [andb orb]. rewrite !orb_true_r. reflexivity.
Qed.

(** The thousands pass only inserts separators. *)
Lemma insertSeparators_In (l : jsstring) : forall prev x,
  In x (insertSeparators sep prev l) -> x = sep \/ In x l.
Proof.
  induction l as [| c l IH]; intros prev x H.
  - rewrite insertSeparators_nil in H. destruct H.
  - rewrite insertSeparators_cons in H. apply in_app_or in H.
    destruct H as [H | [<- | H]].
    + destruct (_ && _); [| destruct H].
      destruct H as [<- | []]. left. reflexivity.
    + right. left. reflexivity.
    + apply IH in H. destruct H; [left | right; right]; assumption.
Qed.

(** Removing the separator undoes the thousands pass on digits. *)
Lemma replaceChar_inserted (l : jsstring) : forall prev,
  isDigit sep = false -> allDigits l ->
  replaceChar sep [] (insertSeparators sep prev l) = l.
Proof.
  induction l as [| c l IH]; intros prev Hsep Hall.
  - rewrite insertSeparators_nil. reflexivity.
  - apply Forall_cons_iff in Hall. destruct Hall as [Hc Hall].
    rewrite insertSeparators_cons, replaceChar_app, replaceChar_cons.
    rewrite IH by assumption.
    assert (Ec : Ascii.eqb c sep = false).
    { destruct (Ascii.eqb c sep) eqn:E; [| reflexivity].
      apply Ascii.eqb_eq in E. congruence. }
    rewrite Ec.
    destruct (_ && _); [| reflexivity].
    rewrite replaceChar_cons, Ascii.eqb_refl. reflexivity.
Qed.

End Thousands.

(** ** Bounds on what rounding returns *)

Lemma round_ratio_shape (neg : bool) (p q : Z) :
  0 <= p -> 0 < q ->
  round_ratio neg p q = Infinity neg
  \/ exists w, round_ratio neg p q = Finite neg w /\ 0 <= w < inf_bits.
Proof.
  intros Hp Hq. unfold round_ratio.
  pose proof (floor_bits_floor p q Hp Hq) as H. cbv zeta in H.
  destruct H as (Hr & _).
  generalize dependent (floor_bits 63 p q 0). intros lo Hr.
  destruct (lo =? inf_bits) eqn:E; [left; reflexivity |].
  apply Z.eqb_neq in E.
  match goal with
  | |- context [if ?r =? inf_bits then _ else _] =>
      assert (Hres : lo <= r <= lo + 1)
        by (destruct (_ ?= _); [destruct (Z.even lo) | |]; lia);
      generalize dependent r; intros res Hres
  end.
  destruct (res =? inf_bits) eqn:E2; [left; reflexivity |].
  apply Z.eqb_neq in E2. right. exists res. split; [reflexivity | lia].
Qed.

Lemma round_decimal_shape (neg : bool) (m e : Z) :
  0 <= m ->
  round_decimal neg m e = Infinity neg
  \/ exists w, round_decimal neg m e = Finite neg w /\ 0 <= w < inf_bits.
Proof.
  intros Hm. unfold round_decimal. destruct (0 <=? e) eqn:E.
  - apply Z.leb_le in E. apply round_ratio_shape; [| lia].
    pose proof (pow10_pos e E). nia.
  - apply Z.leb_gt in E. apply round_ratio_shape; [assumption |].
    apply pow10_pos. lia.
Qed.

(** A ratio below the magnitude [b] does not round above [b]. *)
Lemma round_ratio_below (neg neg' : bool) (p q b w : Z) :
  0 <= p -> 0 < q -> 0 <= b ->
  p * unit_scale < scaled b * q ->
  round_ratio neg p q = Finite neg' w -> w <= b.
Proof.
  intros Hp Hq Hb Hlt Hr.
  apply round_ratio_finite in Hr; [| assumption | assumption].
  destruct Hr as (_ & _ & r & Hr0 & Hrw & Hlo & _).
  assert (Hs : scaled r < scaled b) by nia.
  apply scaled_lt_inv in Hs; lia.
Qed.

Lemma round_decimal_below (neg neg' : bool) (m e c b w : Z) :
  0 <= m -> 0 <= b -> 0 <= c ->
  (forall t, 0 <= t -> 0 <= e + t -> m * 10 ^ (e + t) < c * 10 ^ t) ->
  scaled b = c * unit_scale ->
  round_decimal neg m e = Finite neg' w -> w <= b.
Proof.
  intros Hm Hb Hc Hlt Hsb Hr.
  rewrite (round_decimal_ratio neg m e (Z.abs e)) in Hr by lia.
  specialize (Hlt (Z.abs e) ltac:(lia) ltac:(lia)).
  pose proof (pow10_pos (e + Z.abs e) ltac:(lia)) as H1.
  pose proof (pow10_pos (Z.abs e) ltac:(lia)) as H2.
  pose proof unit_scale_pos as Hu.
  eapply round_ratio_below; [| | exact Hb | | exact Hr].
  - nia.
  - assumption.
  - rewrite Hsb. nia.
Qed.

Lemma digitsFrom_bound (l : jsstring) : forall a,
  allDigits l ->
  digitsFrom a l < (a + 1) * 10 ^ Z.of_nat (length l).
Proof.
  induction l as [| c l IH]; intros a Hl.
  - simpl. lia.
  - apply Forall_cons_iff in Hl. destruct Hl as [Hc Hl].
    rewrite digitsFrom_cons. cbn [length].
    rewrite Nat2Z.inj_succ, Z.pow_succ_r by lia.
    specialize (IH (10 * a + digitValue c) Hl).
    pose proof (digit_range c Hc).
    pose proof (pow10_pos (Z.of_nat (length l)) ltac:(lia)). nia.
Qed.

(** An integer is below the power of ten of its number of digits. *)
Lemma digitsOf_bound (s : Z) :
  0 <= s -> s < 10 ^ Z.of_nat (length (digitsOf s)).
Proof.
  intros Hs. pose proof (digitsFrom_bound (digitsOf s) 0 (digitsOf_all s Hs)).
  pose proof (digitsOf_value s Hs) as Hv. unfold digitsValue in Hv.
  fold (digitsFrom 0 (digitsOf s)) in Hv. lia.
Qed.

Lemma scaled_one : scaled one_bits = 1 * unit_scale.
Proof. vm_compute. reflexivity. Qed.

Lemma scaled_limit : scaled limit_bits = 10 ^ 21 * unit_scale.
Proof. vm_compute. reflexivity. Qed.

Lemma limit_not_plain : plainNotation limit_bits = false.
Proof. vm_compute. reflexivity. Qed.

Lemma decimal_below_pow (s e n : Z) :
  0 <= s -> e + Z.of_nat (length (digitsOf s)) <= n -> 0 <= n ->
  forall t, 0 <= t -> 0 <= e + t -> s * 10 ^ (e + t) < 10 ^ n * 10 ^ t.
Proof.
  intros Hs Hn Hn0 t Ht Het.
  pose proof (digitsOf_bound s Hs) as Hb.
  set (k := Z.of_nat (length (digitsOf s))) in *.
  assert (Hk : 0 <= k) by (subst k; lia).
  pose proof (pow10_pos (e + t) Het) as Hp.
  apply Z.lt_le_trans with (m := 10 ^ k * 10 ^ (e + t)); [nia |].
  rewrite <- !Z.pow_add_r by lia.
  apply Z.pow_le_mono_r; lia.
Qed.

(** A magnitude of [10^21] or more has its decimal point after the first
    digit or later. *)
Lemma shortest_large (w s e : Z) :
  0 <= w < inf_bits ->
  10 ^ 21 * unit_scale <= scaled w ->
  shortest w = (s, e) ->
  1 <= e + Z.of_nat (length (digitsOf s)).
Proof.
  intros Hw Hbig Hs.
  destruct (shortest_ok w s e Hw Hs) as [Hr Hs0].
  destruct (Z_lt_le_dec (e + Z.of_nat (length (digitsOf s))) 1)
    as [Hsmall | Hok]; [exfalso | assumption].
  assert (Hle : w <= one_bits).
  { eapply (round_decimal_below false false s e 1 one_bits w);
      try eassumption; try lia.
    - unfold one_bits. lia.
    - intros t Ht Het.
      pose proof (decimal_below_pow s e 0 Hs0 ltac:(lia) ltac:(lia) t Ht Het).
      rewrite Z.pow_0_r in H. assumption.
    - apply scaled_one. }
  pose proof (scaled_le w one_bits ltac:(lia) Hle) as Hsc.
  rewrite scaled_one in Hsc. pose proof unit_scale_pos.
  assert (1 < 10 ^ 21) by reflexivity. nia.
Qed.

(** What toString writes in plain notation is below [10^21]. *)
Lemma plain_below_limit (w : Z) :
  0 <= w < inf_bits ->
  plainNotation w = true ->
  scaled w < 10 ^ 21 * unit_scale.
Proof.
  intros Hw Hp. rewrite <- scaled_limit.
  apply scaled_lt; [lia |].
  destruct (Z.eq_dec w limit_bits) as [-> | Hne];
    [rewrite limit_not_plain in Hp; discriminate |].
  enough (w <= limit_bits) by lia.
  unfold plainNotation in Hp. apply orb_prop in Hp.
  destruct Hp as [Hz | Hp].
  - apply Z.eqb_eq in Hz. subst w. unfold limit_bits. lia.
  - destruct (shortest w) as [s e] eqn:Es.
    destruct (shortest_ok w s e Hw Es) as [Hr Hs0].
    apply andb_prop in Hp. destruct Hp as [_ Hn]. apply Z.leb_le in Hn.
    eapply (round_decimal_below false false s e (10 ^ 21) limit_bits w);
      try eassumption.
    + unfold limit_bits. lia.
    + apply Z.lt_le_incl, pow10_pos. lia.
    + apply decimal_below_pow; [assumption | assumption | lia].
    + apply scaled_limit.
Qed.

(** ** Which magnitudes are written in plain notation *)

Lemma round_ratio_above (neg neg' : bool) (p q b w : Z) :
  0 <= p -> 0 < q -> 0 <= b ->
  scaled b * q <= p * unit_scale ->
  round_ratio neg p q = Finite neg' w -> b <= w.
Proof.
  intros Hp Hq Hb Hle Hr.
  apply round_ratio_finite in Hr; [| assumption | assumption].
  destruct Hr as (_ & _ & r & Hr0 & Hrw & _ & Hhi).
  assert (Hs : scaled b < scaled (r + 1)) by nia.
  apply scaled_lt_inv in Hs; lia.
Qed.

Lemma round_decimal_above (neg neg' : bool) (m e c b w : Z) :
  0 <= m -> 0 <= b -> 0 <= c ->
  (forall t, 0 <= t -> 0 <= e + t -> c * 10 ^ t <= m * 10 ^ (e + t)) ->
  scaled b = c * unit_scale ->
  round_decimal neg m e = Finite neg' w -> b <= w.
Proof.
  intros Hm Hb Hc Hle Hsb Hr.
  rewrite (round_decimal_ratio neg m e (Z.abs e)) in Hr by lia.
  specialize (Hle (Z.abs e) ltac:(lia) ltac:(lia)).
  pose proof (pow10_pos (e + Z.abs e) ltac:(lia)) as H1.
  pose proof (pow10_pos (Z.abs e) ltac:(lia)) as H2.
  pose proof unit_scale_pos as Hu.
  eapply round_ratio_above; [| | exact Hb | | exact Hr].
  - nia.
  - assumption.
  - rewrite Hsb. nia.
Qed.

(** Zero rounds to zero or to the least magnitude, never further. *)
Lemma round_decimal_zero (neg neg' : bool) (e w : Z) :
  round_decimal neg 0 e = Finite neg' w -> w <= 1.
Proof.
  unfold round_decimal. rewrite Z.mul_0_l.
  assert (H1 : scaled 1 = 1) by reflexivity.
  destruct (0 <=? e) eqn:E; intros Hr;
    eapply (round_ratio_below neg neg' 0 _ 1 w); try exact Hr; try lia;
    apply Z.leb_gt in E; pose proof (pow10_pos (- e) ltac:(lia)); lia.
Qed.

Lemma digits_aux_length (fuel : nat) : forall n acc,
  (length acc < length (digits_aux fuel n acc))%nat.
Proof.
  induction fuel as [| f IH]; intros n acc; cbn [digits_aux].
  - cbn [length]. lia.
  - destruct (n <? 10).
    + cbn [length]. lia.
    + specialize (IH (n / 10) (digitChar (n mod 10) :: acc)).
      cbn [length] in IH. lia.
Qed.

Lemma digits_aux_lower (fuel : nat) : forall n acc,
  1 <= n ->
  10 ^ (Z.of_nat (length (digits_aux fuel n acc))
        - Z.of_nat (length acc) - 1) <= n
  \/ 10 ^ Z.of_nat (S fuel) <= n.
Proof.
  induction fuel as [| f IH]; intros n acc Hn; cbn [digits_aux].
  - destruct (Z_lt_le_dec n 10) as [Hlt | Hge]; [left | right].
    + cbn [length]. replace (Z.of_nat (S (length acc))
                             - Z.of_nat (length acc) - 1) with 0 by lia.
      rewrite Z.pow_0_r. assumption.
    + change (10 ^ Z.of_nat 1) with 10. assumption.
  - destruct (n <? 10) eqn:E.
    + left. cbn [length].
      replace (Z.of_nat (S (length acc)) - Z.of_nat (length acc) - 1)
        with 0 by lia.
      rewrite Z.pow_0_r. assumption.
    + apply Z.ltb_ge in E.
      assert (Hq : 1 <= n / 10)
        by (apply Z.div_le_lower_bound; lia).
      pose proof (Z.div_mod n 10 ltac:(lia)) as Hdm.
      pose proof (Z.mod_pos_bound n 10 ltac:(lia)) as Hmb.
      pose proof (digits_aux_length f (n / 10)
                    (digitChar (n mod 10) :: acc)) as Hlen.
      cbn [length] in Hlen.
      destruct (IH (n / 10) (digitChar (n mod 10) :: acc) Hq) as [H | H].
      * left. cbn [length] in H.
        set (L := Z.of_nat (length (digits_aux f (n / 10)
                                      (digitChar (n mod 10) :: acc)))) in *.
        replace (L - Z.of_nat (length acc) - 1)
          with (Z.succ (L - Z.of_nat (S (length acc)) - 1)) by lia.
        rewrite Z.pow_succ_r by lia. lia.
      * right. rewrite (Nat2Z.inj_succ (S f)), Z.pow_succ_r by lia. lia.
Qed.

(** A positive integer is at least the power of ten of its number of
    digits less one: there is no leading zero. *)
Lemma digitsOf_lower (s : Z) :
  1 <= s -> 10 ^ (Z.of_nat (length (digitsOf s)) - 1) <= s.
Proof.
  intros Hs. unfold digitsOf.
  destruct (digits_aux_lower (Z.to_nat (Z.log2 s)) s [] Hs) as [H | H].
  - cbn [length] in H. rewrite Z.sub_0_r in H. exact H.
  - exfalso. rewrite Nat2Z.inj_succ, Z2Nat.id in H by apply Z.log2_nonneg.
    pose proof (Z.log2_spec s ltac:(lia)) as [_ Hu].
    assert (2 ^ Z.succ (Z.log2 s) <= 10 ^ Z.succ (Z.log2 s)).
    { apply Z.pow_le_mono_l. lia. }
    lia.
Qed.

Lemma choose_floor (w e p q s e' : Z) :
  choose w e p q = Some (s, e') -> e' = e /\ p / q <= s.
Proof.
  unfold choose, nearer.
  generalize (p / q) as lo. intros lo.
  assert (Hhi : lo <= (if p mod q =? 0 then lo else lo + 1))
    by (destruct (_ =? _); lia).
  revert Hhi. generalize (if p mod q =? 0 then lo else lo + 1) as hi.
  intros hi Hhi.
  destruct (roundsTo w lo e); destruct (roundsTo w hi e); try discriminate;
    intros H; injection H as <- <-; (split; [reflexivity |]); try lia.
  destruct (_ ?= _); try destruct (Z.even lo); lia.
Qed.

Lemma rounds_positive (w s e : Z) :
  unit_scale <= scaled w * 10 ^ 6 ->
  0 <= w -> 0 <= s ->
  round_decimal false s e = Finite false w -> 1 <= s.
Proof.
  intros Hlow Hw Hs Hr.
  destruct (Z.eq_dec s 0) as [-> | Hne]; [exfalso | lia].
  apply round_decimal_zero in Hr.
  pose proof (scaled_le w 1 Hw Hr) as Hle.
  change (scaled 1) with 1 in Hle.
  assert (10 ^ 6 < unit_scale) by (vm_compute; reflexivity).
  assert (0 < 10 ^ 6) by reflexivity. nia.
Qed.

Lemma candidate_micro (w n0 k s e : Z) :
  0 <= w ->
  unit_scale <= scaled w * 10 ^ 6 ->
  candidate w n0 k = Some (s, e) ->
  atLeastMicro s e.
Proof.
  intros Hw Hlow Hc.
  destruct (candidate_ok w n0 k s e Hw Hc) as [Hr Hs].
  split; [eapply rounds_positive; eassumption |].
  intros He. unfold candidate in Hc. cbv zeta in Hc.
  destruct (0 <=? n0 - k) eqn:E; apply choose_floor in Hc;
    destruct Hc as [-> Hfloor].
  - apply Z.leb_le in E. lia.
  - eapply Z.le_trans; [| exact Hfloor].
    pose proof unit_scale_pos as Hu.
    apply Z.div_le_lower_bound; [assumption |].
    replace (- (n0 - k)) with (6 + (-6 - (n0 - k))) by lia.
    rewrite Z.pow_add_r by lia.
    pose proof (pow10_pos (-6 - (n0 - k)) ltac:(lia)). nia.
Qed.

Lemma shortest_from_micro (fuel : nat) : forall w n0 k s e,
  0 <= w < inf_bits ->
  unit_scale <= scaled w * 10 ^ 6 ->
  shortest_from fuel w n0 k = (s, e) ->
  atLeastMicro s e.
Proof.
  induction fuel as [| f IH]; intros w n0 k s e Hw Hlow;
    cbn [shortest_from].
  - intros H. injection H as <- <-.
    assert (Hpow : 10 ^ 1068 * 10 ^ 6 = unit_scale * 5 ^ 1074).
    { unfold unit_scale. rewrite <- Z.pow_mul_l, <- Z.pow_add_r by lia.
      reflexivity. }
    assert (H5 : 0 < 5 ^ 1074) by (apply Z.pow_pos_nonneg; lia).
    assert (H6 : 0 < 10 ^ 6) by reflexivity.
    assert (Hbig : 10 ^ 1068 <= scaled w * 5 ^ 1074).
    { revert Hpow Hlow H5 H6.
      generalize (10 ^ 1068) (5 ^ 1074) (10 ^ 6) unit_scale (scaled w).
      intros A B M U V Hpow Hlow H5 H6. nia. }
    split.
    + assert (0 < 10 ^ 1068) by (apply Z.pow_pos_nonneg; lia). lia.
    + intros _. change (-6 - -1074) with 1068. exact Hbig.
  - destruct (candidate w n0 k) as [[s' e'] |] eqn:E.
    + intros H. injection H as <- <-.
      eapply candidate_micro; [| | eassumption]; [lia | assumption].
    + apply IH; assumption.
Qed.

Lemma shortest_micro (w s e : Z) :
  0 <= w < inf_bits ->
  unit_scale <= scaled w * 10 ^ 6 ->
  shortest w = (s, e) ->
  atLeastMicro s e.
Proof.
  intros Hw Hlow. unfold shortest.
  destruct (shortest_from 770 w (decade (scaled w)) 1) as [s0 e0] eqn:E.
  apply shortest_from_micro in E; [| assumption | assumption].
  destruct E as [Hs0 He0].
  intros H. apply strip_zeros_spec in H. destruct H as (d & Hd & Hs & He).
  subst s0 e. pose proof (pow10_pos d Hd) as Hp.
  split; [nia |].
  intros Hle. specialize (He0 ltac:(lia)).
  replace (-6 - e0) with ((-6 - (e0 + d)) + d) in He0 by lia.
  rewrite Z.pow_add_r in He0 by lia.
  pose proof (pow10_pos (-6 - (e0 + d)) ltac:(lia)). nia.
Qed.

(** Zero and every magnitude from [10^-6] up to, not including, [10^21]
    are written in plain notation. *)
Lemma plainNotation_range (w : Z) :
  0 <= w < inf_bits ->
  w = 0
  \/ (unit_scale <= scaled w * 10 ^ 6 /\ scaled w < 10 ^ 21 * unit_scale) ->
  plainNotation w = true.
Proof.
  intros Hw [-> | [Hlow Hup]]; [reflexivity |].
  unfold plainNotation. apply orb_true_intro. right.
  destruct (shortest w) as [s e] eqn:Es.
  destruct (shortest_ok w s e Hw Es) as [Hr Hs0].
  destruct (shortest_micro w s e Hw Hlow Es) as [Hs1 Hmicro].
  pose proof (digitsOf_bound s Hs0) as Hub.
  pose proof (digitsOf_lower s Hs1) as Hlb.
  pose proof (digitsOf_nonempty s) as Hne.
  set (k := Z.of_nat (length (digitsOf s))) in *.
  assert (Hk : 1 <= k).
  { subst k. destruct (digitsOf s); [contradiction | cbn [length]; lia]. }
  apply andb_true_intro. split.
  - apply Z.leb_le.
    destruct (Z_le_gt_dec e (-6)) as [He | He]; [| lia].
    specialize (Hmicro He).
    assert (Hlt : 10 ^ (-6 - e) < 10 ^ k) by lia.
    apply Z.pow_lt_mono_r_iff in Hlt; lia.
  - apply Z.leb_le.
    destruct (Z_le_gt_dec (e + k) 21) as [Hn | Hn]; [assumption | exfalso].
    assert (Hge : limit_bits <= w).
    { eapply (round_decimal_above false false s e (10 ^ 21) limit_bits w);
        try eassumption.
      - unfold limit_bits. lia.
      - apply Z.lt_le_incl, pow10_pos. lia.
      - intros t Ht Het.
        pose proof (pow10_pos (e + t) Het) as Hp.
        apply Z.le_trans with (m := 10 ^ (k - 1) * 10 ^ (e + t)); [| nia].
        rewrite <- !Z.pow_add_r by lia.
        apply Z.pow_le_mono_r; lia.
      - apply scaled_limit. }
    pose proof (scaled_le limit_bits w ltac:(unfold limit_bits; lia) Hge)
      as Hsc.
    rewrite scaled_limit in Hsc. lia.
Qed.

(** [fixedInteger w f] is the magnitude times [10^f], rounded to the
    nearest integer, halves upwards. *)
Lemma fixedInteger_nearest (w f : Z) :
  let n := fixedInteger w f in
  (2 * n - 1) * unit_scale <= 2 * (scaled w * 10 ^ f)
  /\ 2 * (scaled w * 10 ^ f) < (2 * n + 1) * unit_scale.
Proof.
  cbv zeta. unfold fixedInteger.
  replace (2 * scaled w * 10 ^ f) with (2 * (scaled w * 10 ^ f)) by ring.
  generalize (scaled w * 10 ^ f) as x. intros x.
  pose proof unit_scale_pos as Hu. revert Hu.
  generalize unit_scale as u. intros u Hu.
  pose proof (Z.div_mod (2 * x + u) (2 * u) ltac:(lia)) as Hdm.
  pose proof (Z.mod_pos_bound (2 * x + u) (2 * u) ltac:(lia)) as Hmb.
  revert Hdm Hmb.
  generalize ((2 * x + u) / (2 * u)) as n.
  generalize ((2 * x + u) mod (2 * u)) as r.
  intros r n Hdm Hmb. nia.
Qed.

Lemma Normal_inj (A : Type) (a b : A) : Normal a = Normal b -> a = b.
Proof. intros H. congruence. Qed.

(** ** The characters that toString and toFixed write *)

Lemma allDigits_plain (l : jsstring) :
  allDigits l -> Forall (fun x => plainChar x = true) l.
Proof.
  apply Forall_impl. intros x H. unfold plainChar. rewrite H. reflexivity.
Qed.

Lemma plain_not_minus (l : jsstring) :
  Forall (fun x => plainChar x = true) l -> Forall (fun x => x <> "-") l.
Proof. apply Forall_impl. intros x H ->. discriminate. Qed.

Lemma allDigits_not_minus (l : jsstring) :
  allDigits l -> Forall (fun x => x <> "-") l.
Proof. intros H. apply plain_not_minus, allDigits_plain, H. Qed.

Lemma renderDecimal_plain (s e : Z) :
  0 <= s ->
  (let n := e + Z.of_nat (length (digitsOf s)) in
   (-5 <=? n) && (n <=? 21) = true) ->
  Forall (fun x => plainChar x = true) (renderDecimal s e).
Proof.
  intros Hs. cbv zeta. intros Hn. unfold renderDecimal. rewrite Hn.
  pose proof (allDigits_plain _ (digitsOf_all s Hs)) as Hall.
  generalize dependent (digitsOf s). intros ds _ Hall.
  destruct (_ <=? _).
  - apply Forall_app. split; [assumption |].
    apply allDigits_plain, allDigits_zeros.
  - destruct (0 <? _).
    + rewrite <- (firstn_skipn (Z.to_nat (e + Z.of_nat (length ds))) ds)
        in Hall.
      apply Forall_app in Hall. destruct Hall as [H1 H2].
      apply Forall_app. split; [assumption |].
      constructor; [reflexivity | assumption].
    + constructor; [reflexivity |]. constructor; [reflexivity |].
      apply Forall_app. split; [| assumption].
      apply allDigits_plain, allDigits_zeros.
Qed.

Lemma renderDecimal_no_minus (s e : Z) :
  0 <= s ->
  1 <= e + Z.of_nat (length (digitsOf s)) ->
  Forall (fun x => x <> "-") (renderDecimal s e).
Proof.
  intros Hs Hn.
  destruct ((-5 <=? e + Z.of_nat (length (digitsOf s)))
            && (e + Z.of_nat (length (digitsOf s)) <=? 21)) eqn:E.
  - apply plain_not_minus, renderDecimal_plain; assumption.
  - unfold renderDecimal. rewrite E.
    destruct (e + Z.of_nat (length (digitsOf s)) - 1 <? 0) eqn:E1;
      [apply Z.ltb_lt in E1; lia |].
    pose proof (allDigits_not_minus _ (digitsOf_all s Hs)) as Hall.
    assert (Htail : Forall (fun x => x <> "-")
                      ("e" :: "+"
                       :: digitsOf
                            (Z.abs (e + Z.of_nat (length (digitsOf s)) - 1)))).
    { constructor; [discriminate |]. constructor; [discriminate |].
      apply allDigits_not_minus, digitsOf_all. lia. }
    revert Htail.
    generalize ("e" :: "+"
                :: digitsOf (Z.abs (e + Z.of_nat (length (digitsOf s)) - 1))).
    intros tail Htail.
    destruct (digitsOf s) as [| d [| d' r]]; [assumption | |].
    + apply Forall_cons_iff in Hall. destruct Hall as [Hd _].
      constructor; assumption.
    + apply Forall_cons_iff in Hall. destruct Hall as [Hd Hall].
      constructor; [assumption |]. constructor; [discriminate |].
      apply Forall_app. split; assumption.
Qed.

Lemma fixedDigits_plain (n f : Z) :
  0 <= n -> 0 <= f -> Forall (fun x => plainChar x = true) (fixedDigits n f).
Proof.
  intros Hn Hf. destruct (Z.eq_dec f 0) as [-> | Hne].
  - rewrite fixedDigits_zero. apply allDigits_plain, digitsOf_all, Hn.
  - destruct (fixedDigits_shape n f Hn ltac:(lia))
      as (a & b & -> & _ & Ha & Hb & _).
    apply Forall_app. split; [apply allDigits_plain, Ha |].
    constructor; [reflexivity | apply allDigits_plain, Hb].
Qed.

(** [toFixed] writes no minus sign for a magnitude. *)
Lemma toFixed_no_minus (x : number) (f : Z) (r : jsstring) :
  x = Infinity false \/ (exists w, x = Finite false w /\ 0 <= w < inf_bits) ->
  toFixed x f = Normal r ->
  Forall (fun c => c <> "-") r.
Proof.
  intros Hx. unfold toFixed.
  destruct ((f <? 0) || (100 <? f)) eqn:Ef; [discriminate |].
  apply orb_false_elim in Ef. destruct Ef as [Ef _]. apply Z.ltb_ge in Ef.
  intros H. apply Normal_inj in H. subst r.
  destruct Hx as [-> | (w & -> & Hw)].
  - vm_compute. repeat (constructor; [discriminate |]). constructor.
  - rewrite andb_false_l, app_nil_l.
    destruct (10 ^ 21 * unit_scale <=? scaled w) eqn:E.
    + apply Z.leb_le in E. unfold toString.
      destruct (w =? 0) eqn:E0.
      * constructor; [discriminate | constructor].
      * rewrite app_nil_l. destruct (shortest w) as [s e] eqn:Es.
        destruct (shortest_ok w s e Hw Es) as [_ Hs0].
        apply renderDecimal_no_minus; [assumption |].
        eapply shortest_large; eassumption.
    + apply plain_not_minus, fixedDigits_plain; [| assumption].
      apply fixedInteger_nonneg; lia.
Qed.

(** ** parseFloat on the normalized text *)

Lemma span_fst_digits (l : jsstring) : allDigits (fst (span isDigit l)).
Proof.
  induction l as [| c l IH]; [constructor |].
  cbn [span]. destruct (isDigit c) eqn:E; [| constructor].
  destruct (span isDigit l) as [a b]. constructor; assumption.
Qed.

Lemma decimalPrefixValue_shape (neg : bool) (u : jsstring) :
  decimalPrefixValue neg u = NaN
  \/ decimalPrefixValue neg u = Infinity neg
  \/ exists w, decimalPrefixValue neg u = Finite neg w /\ 0 <= w < inf_bits.
Proof.
  unfold decimalPrefixValue.
  pose proof (span_fst_digits u) as Hip.
  destruct (span isDigit u) as [ip r1]. cbn [fst] in Hip.
  assert (Hfp : allDigits (fst match r1 with
                               | "." :: r => span isDigit r
                               | _ => ([], r1)
                               end)).
  { destruct r1 as [| c r]; [constructor |].
    destruct c as [[] [] [] [] [] [] [] []];
      try (cbn [fst]; constructor).
    apply span_fst_digits. }
  destruct (match r1 with
            | "." :: r => span isDigit r
            | _ => ([], r1)
            end) as [fp r2].
  cbn [fst] in Hfp.
  pose proof (allDigits_app ip fp Hip Hfp) as Hall.
  destruct (ip ++ fp) as [| d l] eqn:E; [left; reflexivity |].
  right.
  apply round_decimal_shape.
  apply (digitsFrom_nonneg (d :: l) 0); [lia | assumption].
Qed.

Lemma plainChar_first (c : ascii) (r : jsstring) :
  plainChar c = true ->
  isWhiteSpace c = false /\ splitSign (c :: r) = (false, c :: r).
Proof.
  unfold plainChar. intros H.
  destruct c as [[] [] [] [] [] [] [] []]; try discriminate H;
    split; reflexivity.
Qed.

(** The digits and points of the normalized text denote no negative
    number. *)
Lemma parseFloat_shape (l : jsstring) :
  Forall (fun x => plainChar x = true) l ->
  parseFloat l = NaN
  \/ parseFloat l = Infinity false
  \/ exists w, parseFloat l = Finite false w /\ 0 <= w < inf_bits.
Proof.
  intros H. destruct l as [| c r]; [left; reflexivity |].
  apply Forall_cons_iff in H. destruct H as [Hc _].
  destruct (plainChar_first c r Hc) as [Hws Hsign].
  unfold parseFloat. cbn [dropWhile]. rewrite Hws, Hsign.
  destruct (startsWith (str "Infinity") (c :: r));
    [right; left; reflexivity |].
  apply decimalPrefixValue_shape.
Qed.

Lemma normalizedValue_plain (cfg : Config) (s : jsstring) :
  Forall (fun x => plainChar x = true) (normalizedValue cfg s).
Proof.
  unfold normalizedValue, numericValue, removeOutside.
  induction s as [| x s IH]; [constructor |].
  cbn [filter].
  destruct (isDigit x || Ascii.eqb x (sepChar (decimalSeparator cfg))) eqn:E;
    [| assumption].
  rewrite replaceChar_cons.
  destruct (Ascii.eqb x (sepChar (decimalSeparator cfg))) eqn:Ex.
  - constructor; [reflexivity | assumption].
  - constructor; [| assumption].
    rewrite orb_false_r in E. unfold plainChar. rewrite E. reflexivity.
Qed.

Lemma numberValue_shape (cfg : Config) (s : jsstring) :
  numberValue cfg s = NaN
  \/ numberValue cfg s = Infinity false
  \/ exists w, numberValue cfg s = Finite false w /\ 0 <= w < inf_bits.
Proof. apply parseFloat_shape, normalizedValue_plain. Qed.

(** ** The formatter, step by step *)

Section Formatter.

Variable cfg : Config.

Lemma zeroSentinel_normal :
  0 <= decimalLength cfg -> zeroSentinel cfg = Normal (zeroString cfg).
Proof.
  intros H. unfold zeroSentinel, repeatString, zeroString, zeros.
  destruct (decimalLength cfg <? 0) eqn:E; [apply Z.ltb_lt in E; lia |].
  cbn [bind]. rewrite <- repeat_to_concat. reflexivity.
Qed.

Lemma zeroSentinel_no_minus (r : jsstring) :
  zeroSentinel cfg = Normal r -> Forall (fun c => c <> "-") r.
Proof.
  unfold zeroSentinel, repeatString.
  destruct (decimalLength cfg <? 0); [discriminate |].
  cbn [bind]. intros H. apply Normal_inj in H. subst r.
  rewrite <- repeat_to_concat.
  constructor; [discriminate |].
  constructor; [destruct (decimalSeparator cfg); discriminate |].
  apply allDigits_not_minus. apply (allDigits_zeros (decimalLength cfg)).
Qed.

(** Below [10^21] the result is the grouped integer digits and, when
    there are decimals, the separator and the decimals. *)
Lemma formatNumber_fixed (w : Z) :
  0 <= decimalLength cfg <= 100 ->
  0 <= w ->
  scaled w < 10 ^ 21 * unit_scale ->
  exists a b,
    formatNumber cfg (Finite false w)
    = Normal (insertSeparators (sepChar (thousandSeparator cfg)) None a
              ++ (if decimalLength cfg =? 0 then []
                  else sepChar (decimalSeparator cfg) :: b))
    /\ a <> [] /\ allDigits a /\ allDigits b
    /\ length b = Z.to_nat (decimalLength cfg)
    /\ digitsValue (a ++ b) = fixedInteger w (decimalLength cfg).
Proof.
  intros Hf Hw Hlim. unfold formatNumber.
  rewrite toFixed_fixed by assumption. cbn [bind].
  pose proof (fixedInteger_nonneg w (decimalLength cfg) Hw ltac:(lia)) as Hn.
  generalize dependent (fixedInteger w (decimalLength cfg)). intros n Hn.
  destruct (decimalLength cfg =? 0) eqn:E.
  - apply Z.eqb_eq in E. rewrite E, fixedDigits_zero.
    exists (digitsOf n), [].
    rewrite split_digits by (apply digitsOf_all; assumption).
    cbn [hd nth_error]. rewrite !app_nil_r.
    repeat split.
    + apply digitsOf_nonempty.
    + apply digitsOf_all; assumption.
    + constructor.
    + apply digitsOf_value; assumption.
  - apply Z.eqb_neq in E.
    destruct (fixedDigits_shape n (decimalLength cfg) Hn ltac:(lia))
      as (a & b & -> & Hne & Ha & Hb & Hlen & Hval).
    exists a, b.
    rewrite split_digits_dot, split_digits by assumption.
    cbn [hd nth_error].
    destruct b as [| c b']; [simpl in Hlen; lia |].
    repeat split; assumption.
Qed.

Lemma formatNumber_no_minus (x : number) (r : jsstring) :
  x = Infinity false \/ (exists w, x = Finite false w /\ 0 <= w < inf_bits) ->
  formatNumber cfg x = Normal r ->
  Forall (fun c => c <> "-") r.
Proof.
  intros Hx. unfold formatNumber.
  destruct (toFixed x (decimalLength cfg)) as [fv | ex] eqn:E;
    [| discriminate].
  pose proof (toFixed_no_minus x _ fv Hx E) as Hfv.
  rewrite Forall_forall in Hfv.
  cbn [bind]. intros H. apply Normal_inj in H. subst r.
  apply Forall_forall. intros c Hc. apply in_app_or in Hc.
  assert (Hparts : forall p, In p (split "." fv) -> forall y, In y p ->
                             y <> "-").
  { intros p Hp y Hy. apply Hfv. eapply split_In; eassumption. }
  destruct Hc as [Hc | Hc].
  - apply insertSeparators_In in Hc. destruct Hc as [-> | Hc].
    + destruct (thousandSeparator cfg); discriminate.
    + destruct (split "." fv) as [| h t] eqn:Es; [destruct Hc |].
      apply (Hparts h); [left; reflexivity | exact Hc].
  - destruct (nth_error (split "." fv) 1) as [[| d p] |] eqn:En;
      [destruct Hc | | destruct Hc].
    apply nth_error_In in En.
    destruct Hc as [<- | Hc].
    + destruct (decimalSeparator cfg); discriminate.
    + apply (Hparts (d :: p)); assumption.
Qed.

End Formatter.

(** * The claims *)

(** ** The parser *)

(** C6.  For every string, [parseCurrency] returns the input with every
    thousand separator removed and every decimal separator replaced by
    ["."], and changes nothing else: it is the character-by-character map
    [parseSpec]. *)
Theorem parseCurrency_is_parseSpec (cfg : Config) (s : jsstring) :
  parseCurrency cfg s = parseSpec cfg s.
Proof.
  unfold parseCurrency, parseSpec.
  induction s as [| c s IH]; [reflexivity |].
  rewrite replaceChar_cons, replaceChar_app, IH.
  cbn [flat_map]. f_equal. unfold parseChar.
  destruct (Ascii.eqb c (sepChar (thousandSeparator cfg))); [reflexivity |].
  rewrite replaceChar_cons. cbn [replaceChar flat_map].
  rewrite app_nil_r. reflexivity.
Qed.

(** ** The zero sentinel *)




(** ** Exceptions *)

Lemma formatNumber_normal (cfg : Config) (x : number) :
  0 <= decimalLength cfg <= 100 -> exists r, formatNumber cfg x = Normal r.
Proof.
  intros Hf. unfold formatNumber.
  destruct (toFixed_normal x (decimalLength cfg) Hf) as [fv ->].
  cbn [bind]. eexists. reflexivity.
Qed.

(** C4, as amended.  With [decimalLength] between 0 and 100,
    [formatCurrency] returns a string for every input, and so does
    [parseCurrency].  ([toFixed] raises a RangeError above 100.) *)
Theorem format_returns (cfg : Config) (v : value) (s : jsstring) :
  0 <= decimalLength cfg <= 100 ->
  (exists r, formatCurrency cfg v = Normal r)
  /\ (exists p, parseCurrency cfg s = p).
Proof.
  intros Hf. split; [| eexists; reflexivity].
  unfold formatCurrency.
  rewrite zeroSentinel_normal by lia.
  destruct (isEmpty _); [eexists; reflexivity |].
  destruct (isEmpty _); [eexists; reflexivity |].
  destruct (isNaN _); [eexists; reflexivity |].
  apply formatNumber_normal; assumption.
Qed.

Lemma format_returns_witness :
  (exists r, formatCurrency defaultConfig (VStr (str "12,5")) = Normal r)
  /\ (exists p, parseCurrency defaultConfig (str "12,50") = p).
Proof.
  apply (format_returns defaultConfig (VStr (str "12,5")) (str "12,50")).
  simpl. lia.
Defined.

(** C4 as stated fails: with [decimalLength = 101] the input ["1"] makes
    [formatCurrency] throw. *)
Lemma format_throws_at_101 :
  ~ (exists r, formatCurrency (mkConfig 101 Comma Dot) (VStr (str "1"))
               = Normal r).
Proof.
  assert (E : formatCurrency (mkConfig 101 Comma Dot) (VStr (str "1"))
              = Throw RangeError) by (vm_compute; reflexivity).
  rewrite E. intros [r H]. discriminate H.
Qed.

(** ** Number inputs *)

(** C2.  What the code does on the claim's input: with the default
    configuration ([2], [","], ["."]) the number [1532.31] is formatted as
    ["153.231,00"], not as ["1.532,31"].  The decimal point that [toString]
    writes is removed by the filter, which keeps only digits and [","].
    With the separators exchanged, as in [App.tsx], the same number is
    formatted as ["1,532.31"]. *)
Theorem format_1532_31_default :
  formatCurrency defaultConfig (VNum (numericLiteral "1532.31"))
  = Normal (str "153.231,00")
  /\ formatCurrency (mkConfig 2 Dot Comma) (VNum (numericLiteral "1532.31"))
     = Normal (str "1,532.31").
Proof. vm_compute. split; reflexivity. Qed.

(** C3.  What the code does on a round trip with the default
    configuration: [1.5] is formatted as ["15,00"], parsed to ["15.00"], and
    that is formatted as ["1.500,00"].  With the separators exchanged the
    same round trip returns ["1.50"] twice. *)
Theorem format_parse_format_default :
  (formatCurrency defaultConfig (VNum (numericLiteral "1.5"))
   = Normal (str "15,00")
   /\ parseCurrency defaultConfig (str "15,00") = str "15.00"
   /\ formatCurrency defaultConfig (VStr (str "15.00"))
      = Normal (str "1.500,00"))
  /\ (formatCurrency (mkConfig 2 Dot Comma) (VNum (numericLiteral "1.5"))
      = Normal (str "1.50")
      /\ parseCurrency (mkConfig 2 Dot Comma) (str "1.50") = str "1.50"
      /\ formatCurrency (mkConfig 2 Dot Comma) (VStr (str "1.50"))
         = Normal (str "1.50")).
Proof. vm_compute. repeat split; reflexivity. Qed.



(** ** Minus signs *)

Lemma containsChar_false (c : ascii) (s : jsstring) :
  Forall (fun x => x <> c) s -> containsChar c s = false.
Proof.
  intros H. unfold containsChar.
  induction H as [| x s Hx Hs IH]; [reflexivity |].
  cbn [existsb]. rewrite IH, orb_false_r.
  destruct (Ascii.eqb c x) eqn:E; [| reflexivity].
  apply Ascii.eqb_eq in E. congruence.
Qed.

Lemma numericValue_minus (cfg : Config) (s : jsstring) :
  numericValue cfg ("-" :: s) = numericValue cfg s.
Proof.
  unfold numericValue, removeOutside. cbn [filter].
  destruct (decimalSeparator cfg); reflexivity.
Qed.

Lemma numericValue_no_minus (cfg : Config) (s : jsstring) :
  Forall (fun x => x <> "-") (numericValue cfg s).
Proof.
  unfold numericValue, removeOutside.
  apply Forall_forall. intros x Hx. apply filter_In in Hx.
  destruct Hx as [_ Hx]. intros ->.
  destruct (decimalSeparator cfg); discriminate Hx.
Qed.

Lemma format_no_minus (cfg : Config) (v : value) (r : jsstring) :
  formatCurrency cfg v = Normal r -> Forall (fun x => x <> "-") r.
Proof.
  unfold formatCurrency.
  generalize (match v with VNum x => toString x | VStr s => s end).
  intros s.
  destruct (isEmpty s); [apply zeroSentinel_no_minus |].
  destruct (isEmpty (numericValue cfg s)); [apply zeroSentinel_no_minus |].
  destruct (numberValue_shape cfg s) as [E | E].
  - rewrite E. cbn [isNaN]. apply zeroSentinel_no_minus.
  - assert (Hn : isNaN (numberValue cfg s) = false)
      by (destruct E as [-> | (w & -> & _)]; reflexivity).
    rewrite Hn. apply formatNumber_no_minus. exact E.
Qed.

(** C9.  The filtering pass removes every minus sign: the digits kept from
    ["-" + s] are those kept from [s] and contain no ["-"]; so
    [formatCurrency] returns the same for ["-" + s] as for [s], and what it
    returns, for any argument, never contains ["-"]. *)
Theorem format_ignores_minus (cfg : Config) (s : jsstring) :
  numericValue cfg ("-" :: s) = numericValue cfg s
  /\ containsChar "-" (numericValue cfg s) = false
  /\ formatCurrency cfg (VStr ("-" :: s)) = formatCurrency cfg (VStr s)
  /\ forall v : value,
       match formatCurrency cfg v with
       | Normal r => containsChar "-" r = false
       | Throw _ => True
       end.
Proof.
  split; [apply numericValue_minus |].
  split; [apply containsChar_false, numericValue_no_minus |].
  split.
  - unfold formatCurrency, numberValue, normalizedValue.
    rewrite numericValue_minus. cbn [isEmpty].
    destruct s as [| c s]; reflexivity.
  - intros v. destruct (formatCurrency cfg v) as [r | ex] eqn:E; [| exact I].
    apply containsChar_false. eapply format_no_minus. exact E.
Qed.

(** ** Several decimal separators *)

Lemma digitsAnd_Forall (c : ascii) (s : jsstring) :
  digitsAnd c s = true ->
  Forall (fun x => isDigit x || Ascii.eqb x c = true) s.
Proof.
  unfold digitsAnd. intros H. apply Forall_forall.
  rewrite forallb_forall in H. exact H.
Qed.

Lemma occurrences_cons (c x : ascii) (s : jsstring) :
  occurrences c (x :: s)
  = ((if Ascii.eqb c x then 1 else 0) + occurrences c s)%nat.
Proof.
  unfold occurrences. cbn [filter].
  destruct (Ascii.eqb c x); reflexivity.
Qed.

(** A string of digits and [c] in which [c] occurs splits at its first
    occurrence. *)
Lemma untilChar_split (c : ascii) (s : jsstring) :
  isDigit c = false ->
  digitsAnd c s = true ->
  (1 <= occurrences c s)%nat ->
  exists r,
    s = untilChar c s ++ c :: r
    /\ allDigits (untilChar c s)
    /\ occurrences c s = S (occurrences c r)
    /\ digitsAnd c r = true
    /\ beforeSecond c s = untilChar c s ++ c :: untilChar c r.
Proof.
  intros Hc. induction s as [| x s IH]; intros Hs Hocc.
  - unfold occurrences in Hocc. simpl in Hocc. lia.
  - unfold digitsAnd in Hs. cbn [forallb] in Hs.
    apply andb_prop in Hs. destruct Hs as [Hx Hs].
    rewrite occurrences_cons in Hocc. rewrite occurrences_cons.
    cbn [untilChar beforeSecond].
    rewrite (Ascii.eqb_sym c x) in *.
    destruct (Ascii.eqb x c) eqn:E.
    + apply Ascii.eqb_eq in E. subst x. exists s.
      repeat split; try reflexivity; try assumption. constructor.
    + rewrite orb_false_r in Hx.
      destruct (IH Hs ltac:(lia)) as (r & Hsplit & Hall & Ho & Hr & Hb).
      exists r. repeat split.
      * cbn [app]. f_equal. exact Hsplit.
      * constructor; assumption.
      * lia.
      * assumption.
      * cbn [app]. f_equal. exact Hb.
Qed.

Lemma untilChar_no_char (c : ascii) (s : jsstring) :
  isDigit c = false ->
  digitsAnd c s = true ->
  allDigits (untilChar c s).
Proof.
  intros Hc. induction s as [| x s IH]; intros Hs; [constructor |].
  unfold digitsAnd in Hs. cbn [forallb] in Hs.
  apply andb_prop in Hs. destruct Hs as [Hx Hs].
  cbn [untilChar]. destruct (Ascii.eqb x c) eqn:E; [constructor |].
  rewrite orb_false_r in Hx. constructor; [assumption | apply IH, Hs].
Qed.

Lemma sep_not_digit (s : Separator) : isDigit (sepChar s) = false.
Proof. destruct s; reflexivity. Qed.

Lemma normalizedValue_digits (cfg : Config) (a : jsstring) :
  allDigits a -> normalizedValue cfg a = a.
Proof.
  intros Ha. unfold normalizedValue, numericValue.
  rewrite removeOutside_id.
  - apply replaceChar_absent. revert Ha. apply Forall_impl.
    intros x Hx. apply digit_not_sep. exact Hx.
  - revert Ha. apply Forall_impl. intros x Hx. rewrite Hx. reflexivity.
Qed.

Lemma normalizedValue_app (cfg : Config) (a b : jsstring) :
  normalizedValue cfg (a ++ b) = normalizedValue cfg a ++ normalizedValue cfg b.
Proof.
  unfold normalizedValue, numericValue, removeOutside.
  rewrite filter_app, replaceChar_app. reflexivity.
Qed.

Lemma normalizedValue_sep (cfg : Config) (r : jsstring) :
  normalizedValue cfg (sepChar (decimalSeparator cfg) :: r)
  = "." :: normalizedValue cfg r.
Proof.
  unfold normalizedValue, numericValue, removeOutside. cbn [filter].
  rewrite Ascii.eqb_refl, orb_true_r, replaceChar_cons, Ascii.eqb_refl.
  reflexivity.
Qed.

Lemma numericValue_digitsAnd (cfg : Config) (s : jsstring) :
  digitsAnd (sepChar (decimalSeparator cfg)) s = true ->
  numericValue cfg s = s.
Proof.
  intros H. unfold numericValue. apply removeOutside_id.
  apply digitsAnd_Forall. exact H.
Qed.

(** C10.  When the raw input consists of digits and two or more decimal
    separators and starts with a digit, [formatCurrency] returns what it
    returns on the prefix that ends just before the second separator, and
    the number read is not [NaN]. *)
Theorem format_second_separator (cfg : Config) (s : jsstring) :
  digitsAnd (sepChar (decimalSeparator cfg)) s = true ->
  (2 <= occurrences (sepChar (decimalSeparator cfg)) s)%nat ->
  startsWithDigit s = true ->
  formatCurrency cfg (VStr s)
  = formatCurrency cfg
      (VStr (beforeSecond (sepChar (decimalSeparator cfg)) s))
  /\ isNaN (numberValue cfg s) = false.
Proof.
  intros Hs Hocc Hfirst.
  set (c := sepChar (decimalSeparator cfg)) in *.
  assert (Hc : isDigit c = false) by apply sep_not_digit.
  destruct (untilChar_split c s Hc Hs ltac:(lia))
    as (r & Hsplit & Ha & Ho & Hr & Hbefore).
  destruct (untilChar_split c r Hc Hr ltac:(lia))
    as (r' & Hsplit' & Hb & _ & Hr' & _).
  set (a := untilChar c s) in *. set (b := untilChar c r) in *.
  assert (Hane : a <> []).
  { rewrite Hsplit in Hfirst. destruct a as [| d a']; [| discriminate].
    cbn [app startsWithDigit] in Hfirst. congruence. }
  assert (Hnum : numberValue cfg s
                 = round_decimal false (digitsValue (a ++ b))
                     (- Z.of_nat (length b))).
  { unfold numberValue. rewrite Hsplit, Hsplit'.
    rewrite normalizedValue_app, (normalizedValue_digits cfg a Ha).
    subst c. rewrite normalizedValue_sep.
    rewrite normalizedValue_app, (normalizedValue_digits cfg b Hb).
    rewrite normalizedValue_sep.
    apply parseFloat_fraction; try assumption.
    cbn. repeat split; reflexivity. }
  assert (Hnum' : numberValue cfg (beforeSecond c s)
                  = round_decimal false (digitsValue (a ++ b))
                      (- Z.of_nat (length b))).
  { unfold numberValue. rewrite Hbefore.
    rewrite normalizedValue_app, (normalizedValue_digits cfg a Ha).
    subst c. rewrite normalizedValue_sep.
    rewrite (normalizedValue_digits cfg b Hb).
    rewrite <- (app_nil_r b) at 1.
    apply parseFloat_fraction; try assumption. exact I. }
  assert (Hnn : isNaN (numberValue cfg s) = false).
  { rewrite Hnum.
    destruct (round_decimal_shape false (digitsValue (a ++ b))
                (- Z.of_nat (length b))) as [-> | (w & -> & _)];
      try reflexivity.
    apply (digitsFrom_nonneg (a ++ b) 0); [lia |].
    apply allDigits_app; assumption. }
  split; [| exact Hnn].
  assert (Hs2 : digitsAnd c (beforeSecond c s) = true).
  { rewrite Hbefore. unfold digitsAnd. rewrite forallb_app.
    cbn [forallb]. rewrite Ascii.eqb_refl, orb_true_r. cbn [andb].
    assert (Hd : forall l, allDigits l ->
                   forallb (fun x => isDigit x || Ascii.eqb x c) l = true).
    { intros l Hl. apply forallb_forall. unfold allDigits in Hl.
      rewrite Forall_forall in Hl.
      intros x Hx. rewrite (Hl x Hx). reflexivity. }
    rewrite (Hd a Ha), (Hd b Hb). reflexivity. }
  unfold formatCurrency.
  rewrite (numericValue_digitsAnd cfg s Hs).
  rewrite (numericValue_digitsAnd cfg _ Hs2).
  rewrite Hnum', <- Hnum.
  rewrite Hbefore, Hsplit.
  destruct a as [| d a']; [contradiction | reflexivity].
Qed.

Lemma format_second_separator_witness :
  formatCurrency defaultConfig (VStr (str "1,2,3"))
  = formatCurrency defaultConfig (VStr (str "1,2"))
  /\ isNaN (numberValue defaultConfig (str "1,2,3")) = false.
Proof.
  apply (format_second_separator defaultConfig (str "1,2,3")).
  - reflexivity.
  - vm_compute. lia.
  - reflexivity.
Defined.

(** ** The display pattern *)

Lemma displayString_fixed (cfg : Config) (ip b : jsstring) :
  0 < decimalLength cfg ->
  groupedInteger (sepChar (thousandSeparator cfg)) ip = true ->
  allDigits b ->
  length b = Z.to_nat (decimalLength cfg) ->
  displayString cfg (ip ++ sepChar (decimalSeparator cfg) :: b) = true.
Proof.
  intros Hf Hip Hb Hlen. unfold displayString.
  destruct (decimalLength cfg =? 0) eqn:E; [apply Z.eqb_eq in E; lia |].
  replace (length (ip ++ sepChar (decimalSeparator cfg) :: b)
           - S (Z.to_nat (decimalLength cfg)))%nat with (length ip)
    by (rewrite length_app; cbn [length]; lia).
  rewrite firstn_app, firstn_all, Nat.sub_diag, firstn_O, app_nil_r.
  rewrite skipn_app, skipn_all, Nat.sub_diag, skipn_O, app_nil_l.
  rewrite Hip, Ascii.eqb_refl, Hlen, Nat.eqb_refl.
  cbn [andb]. rewrite andb_true_r.
  apply forallb_forall. unfold allDigits in Hb.
  rewrite Forall_forall in Hb. exact Hb.
Qed.

Lemma displayString_zero (cfg : Config) :
  0 < decimalLength cfg -> displayString cfg (zeroString cfg) = true.
Proof.
  intros Hf. unfold zeroString.
  apply (displayString_fixed cfg ["0"] (zeros (decimalLength cfg)));
    [assumption | reflexivity | apply allDigits_zeros | apply zeros_length].
Qed.

Lemma numberValue_nonempty (cfg : Config) (s : jsstring) :
  isNaN (numberValue cfg s) = false ->
  isEmpty s = false /\ isEmpty (numericValue cfg s) = false.
Proof.
  intros H. unfold numberValue, normalizedValue in H.
  destruct s as [| c s]; [discriminate H |].
  split; [reflexivity |].
  destruct (numericValue cfg (c :: s)); [discriminate H | reflexivity].
Qed.

(** C8, as amended.  With [decimalLength] between 0 and 100: when the
    digits kept from the input denote a number below [10^21], or denote no
    number while [decimalLength > 0], [formatCurrency] returns a string that
    matches the DisplayString pattern. *)
Theorem format_matches_pattern (cfg : Config) (s : jsstring) :
  0 <= decimalLength cfg <= 100 ->
  rendersFixed cfg s = true ->
  exists r,
    formatCurrency cfg (VStr s) = Normal r /\ displayString cfg r = true.
Proof.
  intros Hf Hr. unfold rendersFixed in Hr. unfold formatCurrency.
  destruct (numberValue_shape cfg s) as [E | [E | (w & E & Hw)]].
  - rewrite E in Hr. apply Z.ltb_lt in Hr.
    exists (zeroString cfg).
    rewrite E, zeroSentinel_normal by lia. cbn [isNaN].
    split; [| apply displayString_zero; assumption].
    destruct (isEmpty s); [reflexivity |].
    destruct (isEmpty (numericValue cfg s)); reflexivity.
  - rewrite E in Hr. discriminate Hr.
  - rewrite E in Hr. cbn [belowFixedLimit] in Hr. apply Z.ltb_lt in Hr.
    destruct (numberValue_nonempty cfg s) as [H1 H2];
      [rewrite E; reflexivity |].
    rewrite H1, H2, E. cbn [isNaN].
    destruct (formatNumber_fixed cfg w Hf ltac:(lia) Hr)
      as (a & b & -> & Hne & Ha & Hb & Hlen & _).
    eexists. split; [reflexivity |].
    pose proof (groupedInteger_inserted (sepChar (thousandSeparator cfg))
                  a Hne Ha) as Hg.
    destruct (decimalLength cfg =? 0) eqn:E0.
    + rewrite app_nil_r. unfold displayString. rewrite E0. exact Hg.
    + apply Z.eqb_neq in E0.
      apply displayString_fixed; [lia | assumption | assumption | assumption].
Qed.

Lemma format_matches_pattern_witness :
  exists r,
    formatCurrency defaultConfig (VStr (str "1234567,891")) = Normal r
    /\ displayString defaultConfig r = true.
Proof.
  apply (format_matches_pattern defaultConfig (str "1234567,891")).
  - simpl. lia.
  - vm_compute. reflexivity.
Defined.

(** C8 as stated fails: twenty-two digits are formatted as ["1e+21"],
    which is not a DisplayString. *)
Lemma format_1e21_not_display :
  ~ (exists r,
       formatCurrency defaultConfig (VStr (str "1000000000000000000000"))
       = Normal r
       /\ displayString defaultConfig r = true).
Proof.
  assert (E : formatCurrency defaultConfig
                (VStr (str "1000000000000000000000"))
              = Normal (str "1e+21")) by (vm_compute; reflexivity).
  rewrite E. intros (r & Hr & Hd).
  apply Normal_inj in Hr. subst r. discriminate Hd.
Qed.

(** ** The value written to the form *)

Lemma toString_plain (w : Z) :
  0 <= w < inf_bits ->
  plainNotation w = true ->
  Forall (fun x => plainChar x = true) (toString (Finite false w)).
Proof.
  intros Hw Hp. unfold toString.
  destruct (w =? 0) eqn:E.
  - constructor; [reflexivity | constructor].
  - unfold plainNotation in Hp. rewrite E, orb_false_l in Hp.
    destruct (shortest w) as [s e] eqn:Es.
    destruct (shortest_ok w s e Hw Es) as [_ Hs].
    rewrite app_nil_l. apply renderDecimal_plain; assumption.
Qed.

(** C1, as amended.  With decimal separator ["."], thousand separator
    [","] and [decimalLength] between 0 and 100, for every non-negative
    finite number that [toString] writes in plain notation (zero and the
    numbers from [10^-6] up to [10^21] are, by [plainNotation_range]), the
    text that [formatCurrency] returns is parsed and converted to that
    number rounded to [decimalLength] fractional digits. *)
Theorem format_value_roundtrip (cfg : Config) (w : Z) :
  decimalSeparator cfg = Dot ->
  thousandSeparator cfg = Comma ->
  0 <= decimalLength cfg <= 100 ->
  0 <= w < inf_bits ->
  plainNotation w = true ->
  exists r,
    formatCurrency cfg (VNum (Finite false w)) = Normal r
    /\ formValue cfg r = roundToDigits (Finite false w) (decimalLength cfg).
Proof.
  intros Hds Hts Hf Hw Hp.
  pose proof (toString_parse w Hw Hp) as Hparse.
  pose proof (toString_plain w Hw Hp) as Hchars.
  pose proof (plain_below_limit w Hw Hp) as Hlim.
  unfold formatCurrency.
  generalize dependent (toString (Finite false w)). intros s Hparse Hchars.
  assert (Hnum : numericValue cfg s = s).
  { unfold numericValue. rewrite Hds. apply removeOutside_id. exact Hchars. }
  assert (Hval : numberValue cfg s = Finite false w).
  { unfold numberValue, normalizedValue. rewrite Hnum, Hds.
    cbn [sepChar]. rewrite replaceChar_same. exact Hparse. }
  destruct (numberValue_nonempty cfg s) as [H1 H2];
    [rewrite Hval; reflexivity |].
  rewrite H1, H2, Hval. cbn [isNaN].
  destruct (formatNumber_fixed cfg w Hf ltac:(lia) Hlim)
    as (a & b & -> & Hne & Ha & Hb & Hlen & Hdigits).
  eexists. split; [reflexivity |].
  unfold formValue, parseCurrency, roundToDigits.
  rewrite Hds, Hts. cbn [sepChar].
  rewrite replaceChar_same, replaceChar_app.
  rewrite replaceChar_inserted by (reflexivity || assumption).
  destruct (decimalLength cfg =? 0) eqn:E0.
  - apply Z.eqb_eq in E0. rewrite E0 in *.
    destruct b; [| discriminate Hlen].
    rewrite app_nil_r in *. cbn [replaceChar flat_map].
    rewrite parseFloat_integer by assumption.
    rewrite Hdigits. reflexivity.
  - rewrite replaceChar_cons. cbn [Ascii.eqb Bool.eqb app].
    rewrite replaceChar_absent
      by (revert Hb; apply Forall_impl; intros x Hx;
          apply (digit_not_sep x Comma Hx)).
    rewrite <- (app_nil_r b) at 1.
    rewrite parseFloat_fraction by (assumption || exact I).
    rewrite Hdigits, Hlen, Z2Nat.id by lia. reflexivity.
Qed.

Lemma format_value_roundtrip_witness :
  exists r,
    formatCurrency (mkConfig 2 Dot Comma)
      (VNum (Finite false 4654453986095781642)) = Normal r
    /\ formValue (mkConfig 2 Dot Comma) r
       = roundToDigits (Finite false 4654453986095781642) 2.
Proof.
  apply (format_value_roundtrip (mkConfig 2 Dot Comma) 4654453986095781642).
  - reflexivity.
  - reflexivity.
  - simpl. lia.
  - unfold inf_bits. lia.
  - vm_compute. reflexivity.
Defined.

(** C1 as stated fails.  With separators ["."] and [","] the number
    [1e21], which [toString] writes as ["1e+21"], is formatted as
    ["121.00"] and comes back as [121]. *)
Lemma roundtrip_value_fails :
  ~ (forall (cfg : Config) (w : Z),
       decimalSeparator cfg <> thousandSeparator cfg ->
       0 <= decimalLength cfg ->
       0 <= w < inf_bits ->
       exists r,
         formatCurrency cfg (VNum (Finite false w)) = Normal r
         /\ formValue cfg r
            = roundToDigits (Finite false w) (decimalLength cfg)).
Proof.
  intros H.
  destruct (H (mkConfig 2 Dot Comma) limit_bits)
    as (r & Hr & Hv); [discriminate | simpl; lia | vm_compute; split; congruence |].
  assert (E : formatCurrency (mkConfig 2 Dot Comma)
                (VNum (Finite false limit_bits))
              = Normal (str "121.00")) by (vm_compute; reflexivity).
  rewrite E in Hr. apply Normal_inj in Hr. subst r.
  vm_compute in Hv. discriminate Hv.
Qed.

(** * Further properties of the component *)

(** ** Characters that are not kept *)

Lemma numericValue_idem (cfg : Config) (s : jsstring) :
  numericValue cfg (numericValue cfg s) = numericValue cfg s.
Proof.
  unfold numericValue, removeOutside.
  induction s as [| c s IH]; [reflexivity |].
  cbn [filter].
  destruct (isDigit c || Ascii.eqb c (sepChar (decimalSeparator cfg))) eqn:E;
    [| exact IH].
  cbn [filter]. rewrite E, IH. reflexivity.
Qed.

Lemma formatCurrency_kept (cfg : Config) (s : jsstring) :
  formatCurrency cfg (VStr s) = formatCurrency cfg (VStr (numericValue cfg s)).
Proof.
  unfold formatCurrency, numberValue, normalizedValue.
  rewrite numericValue_idem.
  destruct s as [| c s]; [reflexivity |]. cbn [isEmpty].
  destruct (isEmpty (numericValue cfg (c :: s))); reflexivity.
Qed.

(** X1.  Characters other than digits and the decimal separator (letters,
    currency signs, spaces, thousand separators) have no effect on what
    [formatCurrency] returns: a text and the text with those characters
    deleted are formatted alike. *)
Theorem format_of_kept_characters (cfg : Config) (s : jsstring) :
  formatCurrency cfg (VStr s) = formatCurrency cfg (VStr (numericValue cfg s)).
Proof.
  exact (formatCurrency_kept cfg s).
Qed.

(** ** The first character of the formatted text *)

Lemma renderDecimal_starts (s e : Z) :
  0 <= s -> startsWithDigit (renderDecimal s e) = true.
Proof.
  intros Hs. unfold renderDecimal.
  pose proof (digitsOf_all s Hs) as Hall.
  pose proof (digitsOf_nonempty s) as Hne.
  destruct (digitsOf s) as [| d r]; [contradiction |].
  apply Forall_cons_iff in Hall. destruct Hall as [Hd _].
  destruct (_ && _).
  - destruct (_ <=? _); [exact Hd |].
    destruct (0 <? e + Z.of_nat (length (d :: r))) eqn:E; [| reflexivity].
    apply Z.ltb_lt in E.
    destruct (Z.to_nat (e + Z.of_nat (length (d :: r)))) eqn:En; [lia |].
    exact Hd.
  - destruct r; exact Hd.
Qed.

Lemma toString_starts (w : Z) :
  0 <= w < inf_bits -> startsWithDigit (toString (Finite false w)) = true.
Proof.
  intros Hw. unfold toString. destruct (w =? 0); [reflexivity |].
  rewrite app_nil_l. destruct (shortest w) as [s e] eqn:Es.
  destruct (shortest_ok w s e Hw Es) as [_ Hs].
  apply renderDecimal_starts. exact Hs.
Qed.

Lemma fixedDigits_starts (n f : Z) :
  0 <= n -> 0 <= f -> startsWithDigit (fixedDigits n f) = true.
Proof.
  intros Hn Hf. destruct (Z.eq_dec f 0) as [-> | Hne].
  - rewrite fixedDigits_zero.
    pose proof (digitsOf_all n Hn) as Hall.
    pose proof (digitsOf_nonempty n) as Hnn.
    destruct (digitsOf n) as [| d r]; [contradiction |].
    apply Forall_cons_iff in Hall. exact (proj1 Hall).
  - destruct (fixedDigits_shape n f Hn ltac:(lia))
      as (a & b & -> & Hane & Ha & _).
    destruct a as [| d a]; [contradiction |].
    apply Forall_cons_iff in Ha. exact (proj1 Ha).
Qed.

Lemma toFixed_starts (x : number) (f : Z) (fv : jsstring) :
  x = Infinity false \/ (exists w, x = Finite false w /\ 0 <= w < inf_bits) ->
  toFixed x f = Normal fv ->
  fv = str "Infinity" \/ startsWithDigit fv = true.
Proof.
  intros Hx. unfold toFixed.
  destruct ((f <? 0) || (100 <? f)) eqn:Ef; [discriminate |].
  apply orb_false_elim in Ef. destruct Ef as [Ef _]. apply Z.ltb_ge in Ef.
  intros H. apply Normal_inj in H. subst fv.
  destruct Hx as [-> | (w & -> & Hw)]; [left; reflexivity | right].
  rewrite andb_false_l, app_nil_l.
  destruct (_ <=? _).
  - apply toString_starts. exact Hw.
  - apply fixedDigits_starts; [| assumption].
    apply fixedInteger_nonneg; lia.
Qed.

Lemma formatNumber_starts (cfg : Config) (x : number) (r : jsstring) :
  x = Infinity false \/ (exists w, x = Finite false w /\ 0 <= w < inf_bits) ->
  formatNumber cfg x = Normal r ->
  r = str "Infinity" \/ startsWithDigit r = true.
Proof.
  intros Hx. unfold formatNumber.
  destruct (toFixed x (decimalLength cfg)) as [fv | ex] eqn:E;
    [| discriminate].
  cbn [bind]. intros H. apply Normal_inj in H. subst r.
  destruct (toFixed_starts x _ fv Hx E) as [-> | Hfv].
  - left. destruct (thousandSeparator cfg); reflexivity.
  - right. destruct fv as [| d t]; [discriminate Hfv |].
    cbn [startsWithDigit] in Hfv. cbn [split].
    rewrite (digit_not_dot d Hfv).
    destruct (split "." t) as [| h tl]; cbn [hd];
      rewrite insertSeparators_start by assumption; exact Hfv.
Qed.

Lemma formatCurrency_starts (cfg : Config) (v : value) (r : jsstring) :
  formatCurrency cfg v = Normal r ->
  r = str "Infinity" \/ startsWithDigit r = true.
Proof.
  assert (Hz : zeroSentinel cfg = Normal r -> startsWithDigit r = true).
  { unfold zeroSentinel, repeatString.
    destruct (decimalLength cfg <? 0); [discriminate |].
    cbn [bind]. intros H. apply Normal_inj in H. subst r. reflexivity. }
  unfold formatCurrency.
  generalize (match v with VNum x => toString x | VStr s => s end).
  intros s.
  destruct (isEmpty s); [right; auto |].
  destruct (isEmpty (numericValue cfg s)); [right; auto |].
  destruct (numberValue_shape cfg s) as [E | E].
  - rewrite E. cbn [isNaN]. right; auto.
  - assert (Hn : isNaN (numberValue cfg s) = false)
      by (destruct E as [-> | (w & -> & _)]; reflexivity).
    rewrite Hn. apply formatNumber_starts. exact E.
Qed.

(** X2.  What [formatCurrency] returns starts with a digit, or is
    ["Infinity"]: it is never empty and never starts with a separator or a
    sign. *)
Theorem format_starts_with_digit (cfg : Config) (v : value) (r : jsstring) :
  formatCurrency cfg v = Normal r ->
  r = str "Infinity" \/ startsWithDigit r = true.
Proof.
  exact (formatCurrency_starts cfg v r).
Qed.

Lemma format_starts_with_digit_witness :
  str "1.234,50" = str "Infinity" \/ startsWithDigit (str "1.234,50") = true.
Proof.
  apply (format_starts_with_digit defaultConfig (VStr (str "x1234,5"))).
  vm_compute. reflexivity.
Defined.

(** ** The number passed to the form *)

Lemma round_ratio_not_nan (neg : bool) (p q : Z) : round_ratio neg p q <> NaN.
Proof.
  unfold round_ratio. destruct (_ =? inf_bits); [discriminate |].
  destruct (_ =? inf_bits); discriminate.
Qed.

Lemma round_decimal_not_nan (neg : bool) (m e : Z) :
  round_decimal neg m e <> NaN.
Proof.
  unfold round_decimal. destruct (0 <=? e); apply round_ratio_not_nan.
Qed.

Lemma decimalPrefixValue_digit (neg : bool) (d : ascii) (l : jsstring) :
  isDigit d = true ->
  decimalPrefixValue neg (d :: l) = Infinity neg
  \/ exists w, decimalPrefixValue neg (d :: l) = Finite neg w
               /\ 0 <= w < inf_bits.
Proof.
  intros Hd.
  destruct (decimalPrefixValue_shape neg (d :: l)) as [E | E];
    [exfalso | exact E].
  revert E. unfold decimalPrefixValue. cbn [span]. rewrite Hd.
  destruct (span isDigit l) as [a b].
  destruct (match b with
            | "." :: r => span isDigit r
            | _ => ([], b)
            end) as [fp r2].
  cbn [app]. apply round_decimal_not_nan.
Qed.

Lemma parseCurrency_digit (cfg : Config) (d : ascii) (l : jsstring) :
  isDigit d = true ->
  parseCurrency cfg (d :: l) = d :: parseCurrency cfg l.
Proof.
  intros Hd. unfold parseCurrency.
  rewrite replaceChar_cons, (digit_not_sep d _ Hd). cbn [app].
  rewrite replaceChar_cons, (digit_not_sep d _ Hd). reflexivity.
Qed.

Lemma formatCurrency_normal (cfg : Config) (v : value) :
  0 <= decimalLength cfg <= 100 ->
  exists r, formatCurrency cfg v = Normal r.
Proof.
  intros Hf. unfold formatCurrency.
  rewrite zeroSentinel_normal by lia.
  destruct (isEmpty _); [eexists; reflexivity |].
  destruct (isEmpty _); [eexists; reflexivity |].
  destruct (isNaN _); [eexists; reflexivity |].
  apply formatNumber_normal; assumption.
Qed.

(** X3.  With [decimalLength] between 0 and 100 the handler passes a
    number to the form for every text: never [NaN], never a negative
    number. *)
Theorem change_passes_magnitude (cfg : Config) (userInput : jsstring) :
  0 <= decimalLength cfg <= 100 ->
  exists y,
    handleReactHookFormChange cfg userInput = Normal y
    /\ (y = Infinity false
        \/ exists w, y = Finite false w /\ 0 <= w < inf_bits).
Proof.
  intros Hf. unfold handleReactHookFormChange.
  destruct (formatCurrency_normal cfg (VStr userInput) Hf) as [r Hr].
  rewrite Hr. cbn [bind]. eexists. split; [reflexivity |].
  destruct (formatCurrency_starts cfg _ r Hr) as [-> | Hd].
  - left. unfold parseCurrency.
    destruct (decimalSeparator cfg), (thousandSeparator cfg); reflexivity.
  - destruct r as [| d r]; [discriminate Hd |].
    cbn [startsWithDigit] in Hd.
    rewrite parseCurrency_digit, parseFloat_digit_first by assumption.
    apply decimalPrefixValue_digit. exact Hd.
Qed.

Lemma change_passes_magnitude_witness :
  exists y,
    handleReactHookFormChange defaultConfig (str "12a,5") = Normal y
    /\ (y = Infinity false
        \/ exists w, y = Finite false w /\ 0 <= w < inf_bits).
Proof.
  apply (change_passes_magnitude defaultConfig (str "12a,5")).
  simpl. lia.
Defined.




Lemma replaceChar_digits (s : Separator) (r l : jsstring) :
  allDigits l -> replaceChar (sepChar s) r l = l.
Proof.
  intros Hl. apply replaceChar_absent. revert Hl. apply Forall_impl.
  intros x Hx. apply digit_not_sep. exact Hx.
Qed.




(** ** What is stored for a number below [10^21] *)

(** The formatted text next to the text of [toFixed]: the same integer
    digits, grouped, and the same decimals after the separator. *)
Lemma formatNumber_text (cfg : Config) (w : Z) :
  0 <= decimalLength cfg <= 100 ->
  0 <= w ->
  scaled w < 10 ^ 21 * unit_scale ->
  exists a b,
    formatNumber cfg (Finite false w)
    = Normal (insertSeparators (sepChar (thousandSeparator cfg)) None a
              ++ (if decimalLength cfg =? 0 then []
                  else sepChar (decimalSeparator cfg) :: b))
    /\ fixedDigits (fixedInteger w (decimalLength cfg)) (decimalLength cfg)
       = a ++ (if decimalLength cfg =? 0 then [] else "." :: b)
    /\ a <> [] /\ allDigits a /\ allDigits b
    /\ length b = Z.to_nat (decimalLength cfg)
    /\ digitsValue (a ++ b) = fixedInteger w (decimalLength cfg).
Proof.
  intros Hf Hw Hlim. unfold formatNumber.
  rewrite toFixed_fixed by assumption. cbn [bind].
  pose proof (fixedInteger_nonneg w (decimalLength cfg) Hw ltac:(lia)) as Hn.
  generalize dependent (fixedInteger w (decimalLength cfg)). intros n Hn.
  destruct (decimalLength cfg =? 0) eqn:E.
  - apply Z.eqb_eq in E. rewrite E, fixedDigits_zero.
    exists (digitsOf n), [].
    rewrite split_digits by (apply digitsOf_all; assumption).
    cbn [hd nth_error]. rewrite !app_nil_r.
    repeat split.
    + apply digitsOf_nonempty.
    + apply digitsOf_all; assumption.
    + constructor.
    + apply digitsOf_value; assumption.
  - apply Z.eqb_neq in E.
    destruct (fixedDigits_shape n (decimalLength cfg) Hn ltac:(lia))
      as (a & b & Hfd & Hne & Ha & Hb & Hlen & Hval).
    exists a, b. rewrite Hfd.
    rewrite split_digits_dot, split_digits by assumption.
    cbn [hd nth_error].
    destruct b as [| c b']; [simpl in Hlen; lia |].
    repeat split; assumption.
Qed.

Lemma sepChar_eqb (a b : Separator) :
  a <> b -> Ascii.eqb (sepChar a) (sepChar b) = false.
Proof. destruct a, b; intros H; try reflexivity; contradiction. Qed.

(** With distinct separators [parseCurrency] turns grouped digits, the
    decimal separator and decimals back into digits, a point and the
    decimals. *)
Lemma parseCurrency_grouped (cfg : Config) (a b : jsstring) :
  decimalSeparator cfg <> thousandSeparator cfg ->
  allDigits a -> allDigits b ->
  parseCurrency cfg
    (insertSeparators (sepChar (thousandSeparator cfg)) None a
     ++ sepChar (decimalSeparator cfg) :: b)
  = a ++ "." :: b.
Proof.
  intros Hsep Ha Hb. unfold parseCurrency.
  rewrite replaceChar_app,
    (replaceChar_inserted _ a None (sep_not_digit _) Ha).
  rewrite replaceChar_cons, (sepChar_eqb _ _ Hsep),
    (replaceChar_digits _ _ b Hb).
  cbn [app]. rewrite replaceChar_app, (replaceChar_digits _ _ a Ha).
  rewrite replaceChar_cons, Ascii.eqb_refl, (replaceChar_digits _ _ b Hb).
  reflexivity.
Qed.

Lemma parseCurrency_grouped_integer (cfg : Config) (a : jsstring) :
  allDigits a ->
  parseCurrency cfg
    (insertSeparators (sepChar (thousandSeparator cfg)) None a)
  = a.
Proof.
  intros Ha. unfold parseCurrency.
  rewrite (replaceChar_inserted _ a None (sep_not_digit _) Ha).
  apply replaceChar_digits. exact Ha.
Qed.

Lemma belowFixedLimit_finite (cfg : Config) (s : jsstring) :
  belowFixedLimit (numberValue cfg s) = true ->
  exists w,
    numberValue cfg s = Finite false w
    /\ 0 <= w < inf_bits /\ scaled w < 10 ^ 21 * unit_scale.
Proof.
  intros H.
  destruct (numberValue_shape cfg s) as [E | [E | (w & E & Hw)]];
    rewrite E in H; try discriminate H.
  exists w. cbn [belowFixedLimit] in H. apply Z.ltb_lt in H.
  repeat split; (assumption || lia).
Qed.

Lemma formatCurrency_number (cfg : Config) (s : jsstring) (w : Z) :
  numberValue cfg s = Finite false w ->
  formatCurrency cfg (VStr s) = formatNumber cfg (Finite false w).
Proof.
  intros E. unfold formatCurrency.
  destruct (numberValue_nonempty cfg s) as [H1 H2];
    [rewrite E; reflexivity |].
  rewrite H1, H2, E. reflexivity.
Qed.

Lemma change_rounded (cfg : Config) (userInput : jsstring) :
  decimalSeparator cfg <> thousandSeparator cfg ->
  0 <= decimalLength cfg <= 100 ->
  belowFixedLimit (numberValue cfg userInput) = true ->
  exists w r,
    numberValue cfg userInput = Finite false w
    /\ formatCurrency cfg (VStr userInput) = Normal r
    /\ parseCurrency cfg r
       = fixedDigits (fixedInteger w (decimalLength cfg)) (decimalLength cfg)
    /\ handleReactHookFormChange cfg userInput
       = Normal (roundToDigits (Finite false w) (decimalLength cfg)).
Proof.
  intros Hsep Hf Hb.
  destruct (belowFixedLimit_finite cfg userInput Hb) as (w & E & Hw & Hlim).
  destruct (formatNumber_text cfg w Hf ltac:(lia) Hlim)
    as (a & b & Hr & Hfd & Hne & Ha & Hbd & Hlen & Hval).
  exists w. eexists. split; [exact E |].
  unfold handleReactHookFormChange.
  rewrite (formatCurrency_number cfg userInput w E), Hr. cbn [bind].
  split; [reflexivity |]. rewrite Hfd. unfold roundToDigits.
  destruct (decimalLength cfg =? 0) eqn:E0.
  - apply Z.eqb_eq in E0. rewrite E0 in *.
    destruct b; [| discriminate Hlen].
    rewrite !app_nil_r in *.
    rewrite parseCurrency_grouped_integer by assumption.
    split; [reflexivity |].
    rewrite parseFloat_integer, Hval by assumption. reflexivity.
  - rewrite parseCurrency_grouped by assumption.
    split; [reflexivity |].
    rewrite <- (app_nil_r b) at 1.
    rewrite parseFloat_fraction by (assumption || exact I).
    rewrite Hval, Hlen, Z2Nat.id by lia. reflexivity.
Qed.

(** X5.  With distinct separators and [decimalLength] between 0 and 100,
    when the digits kept from the text denote a number below [10^21]:
    [parseCurrency] turns the formatted text into exactly the text that
    [toFixed] printed, and the handler passes the number rounded to
    [decimalLength] decimals to the form. *)
Theorem change_stores_rounded (cfg : Config) (userInput : jsstring) :
  decimalSeparator cfg <> thousandSeparator cfg ->
  0 <= decimalLength cfg <= 100 ->
  belowFixedLimit (numberValue cfg userInput) = true ->
  exists w r,
    numberValue cfg userInput = Finite false w
    /\ formatCurrency cfg (VStr userInput) = Normal r
    /\ parseCurrency cfg r
       = fixedDigits (fixedInteger w (decimalLength cfg)) (decimalLength cfg)
    /\ handleReactHookFormChange cfg userInput
       = Normal (roundToDigits (Finite false w) (decimalLength cfg)).
Proof.
  exact (change_rounded cfg userInput).
Qed.

Lemma change_stores_rounded_witness :
  exists w r,
    numberValue defaultConfig (str "1234,567") = Finite false w
    /\ formatCurrency defaultConfig (VStr (str "1234,567")) = Normal r
    /\ parseCurrency defaultConfig r = fixedDigits (fixedInteger w 2) 2
    /\ handleReactHookFormChange defaultConfig (str "1234,567")
       = Normal (roundToDigits (Finite false w) 2).
Proof.
  apply (change_stores_rounded defaultConfig (str "1234,567")).
  - discriminate.
  - simpl. lia.
  - vm_compute. reflexivity.
Defined.

(** X6.  When both separators are the same character (nothing prevents
    it), [parseCurrency] removes the decimal separator too: for digits that
    denote a number below [10^21] the handler passes the rounded number
    times [10^decimalLength], the displayed digits read as one integer. *)
Theorem change_with_equal_separators (cfg : Config) (userInput : jsstring) :
  decimalSeparator cfg = thousandSeparator cfg ->
  0 <= decimalLength cfg <= 100 ->
  belowFixedLimit (numberValue cfg userInput) = true ->
  exists w,
    numberValue cfg userInput = Finite false w
    /\ handleReactHookFormChange cfg userInput
       = Normal (round_decimal false
                   (fixedInteger w (decimalLength cfg)) 0).
Proof.
  intros Hsep Hf Hb.
  destruct (belowFixedLimit_finite cfg userInput Hb) as (w & E & Hw & Hlim).
  destruct (formatNumber_fixed cfg w Hf ltac:(lia) Hlim)
    as (a & b & Hr & Hne & Ha & Hbd & Hlen & Hval).
  exists w. split; [exact E |].
  unfold handleReactHookFormChange.
  rewrite (formatCurrency_number cfg userInput w E), Hr. cbn [bind].
  f_equal. unfold parseCurrency. rewrite Hsep.
  assert (Hrem : replaceChar (sepChar (thousandSeparator cfg)) []
                   (insertSeparators (sepChar (thousandSeparator cfg)) None a
                    ++ (if decimalLength cfg =? 0 then []
                        else sepChar (thousandSeparator cfg) :: b))
                 = a ++ b).
  { rewrite replaceChar_app,
      (replaceChar_inserted _ a None (sep_not_digit _) Ha).
    f_equal. destruct (decimalLength cfg =? 0) eqn:E0.
    - apply Z.eqb_eq in E0. rewrite E0 in Hlen.
      destruct b; [reflexivity | discriminate Hlen].
    - rewrite replaceChar_cons, Ascii.eqb_refl. cbn [app].
      apply replaceChar_digits. exact Hbd. }
  rewrite Hrem, replaceChar_digits by (apply allDigits_app; assumption).
  rewrite parseFloat_integer, Hval.
  - reflexivity.
  - destruct a; [contradiction | discriminate].
  - apply allDigits_app; assumption.
Qed.

Lemma change_with_equal_separators_witness :
  exists w,
    numberValue (mkConfig 2 Comma Comma) (str "12,5") = Finite false w
    /\ handleReactHookFormChange (mkConfig 2 Comma Comma) (str "12,5")
       = Normal (round_decimal false (fixedInteger w 2) 0).
Proof.
  apply (change_with_equal_separators (mkConfig 2 Comma Comma) (str "12,5")).
  - reflexivity.
  - simpl. lia.
  - vm_compute. reflexivity.
Defined.

(** ** How close the displayed number is *)

(** X7.  With [decimalLength] between 0 and 100, when the digits kept from
    the text denote a number below [10^21], the digits displayed (integer part
    and decimals read as one integer [n]) are the number times
    [10^decimalLength] rounded to the nearest integer, halves upwards: the
    display is off by at most half a unit of its last digit. *)
Theorem format_rounds_half_up (cfg : Config) (s : jsstring) :
  0 <= decimalLength cfg <= 100 ->
  belowFixedLimit (numberValue cfg s) = true ->
  exists w a b,
    numberValue cfg s = Finite false w
    /\ formatCurrency cfg (VStr s)
       = Normal (insertSeparators (sepChar (thousandSeparator cfg)) None a
                 ++ (if decimalLength cfg =? 0 then []
                     else sepChar (decimalSeparator cfg) :: b))
    /\ allDigits a /\ allDigits b
    /\ (2 * digitsValue (a ++ b) - 1) * unit_scale
       <= 2 * (scaled w * 10 ^ decimalLength cfg)
    /\ 2 * (scaled w * 10 ^ decimalLength cfg)
       < (2 * digitsValue (a ++ b) + 1) * unit_scale.
Proof.
  intros Hf Hb.
  destruct (belowFixedLimit_finite cfg s Hb) as (w & E & Hw & Hlim).
  destruct (formatNumber_fixed cfg w Hf ltac:(lia) Hlim)
    as (a & b & Hr & Hne & Ha & Hbd & Hlen & Hval).
  exists w, a, b. rewrite (formatCurrency_number cfg s w E), Hr, Hval.
  pose proof (fixedInteger_nearest w (decimalLength cfg)) as Hn.
  cbv zeta in Hn. destruct Hn as [Hn1 Hn2].
  repeat split; assumption.
Qed.

Lemma format_rounds_half_up_witness :
  exists w a b,
    numberValue defaultConfig (str "0,125") = Finite false w
    /\ formatCurrency defaultConfig (VStr (str "0,125"))
       = Normal (insertSeparators "." None a ++ "," :: b)
    /\ allDigits a /\ allDigits b
    /\ (2 * digitsValue (a ++ b) - 1) * unit_scale
       <= 2 * (scaled w * 10 ^ 2)
    /\ 2 * (scaled w * 10 ^ 2)
       < (2 * digitsValue (a ++ b) + 1) * unit_scale.
Proof.
  apply (format_rounds_half_up defaultConfig (str "0,125")).
  - simpl. lia.
  - vm_compute. reflexivity.
Defined.

(** ** The text rendered for a number *)

Lemma renderedValue_number (cfg : Config) (w : Z) :
  decimalSeparator cfg = Dot ->
  0 <= w < inf_bits ->
  plainNotation w = true ->
  renderedValue cfg (defaultValue (Finite false w))
  = formatNumber cfg (Finite false w)
  /\ renderedValue cfg (VNum (Finite false w))
     = formatNumber cfg (Finite false w).
Proof.
  intros Hds Hw Hp.
  assert (H : formatCurrency cfg (VStr (toString (Finite false w)))
              = formatNumber cfg (Finite false w)).
  { apply formatCurrency_number.
    pose proof (toString_parse w Hw Hp) as Hparse.
    pose proof (toString_plain w Hw Hp) as Hchars.
    unfold numberValue, normalizedValue, numericValue.
    rewrite Hds. cbn [sepChar].
    rewrite removeOutside_id by exact Hchars.
    rewrite replaceChar_same. exact Hparse. }
  split; exact H.
Qed.

(** X8.  With ["."] as decimal separator, for a non-negative number that
    [String] writes in plain notation, with whatever thousand separator:
    writing the number as a string and filtering it loses nothing, so the
    text rendered for the default value and for the field value is the
    text of [toFixed] of that number with the integer digits grouped. *)
Theorem rendered_number_dot (cfg : Config) (w : Z) :
  decimalSeparator cfg = Dot ->
  0 <= w < inf_bits ->
  plainNotation w = true ->
  renderedValue cfg (defaultValue (Finite false w))
  = formatNumber cfg (Finite false w)
  /\ renderedValue cfg (VNum (Finite false w))
     = formatNumber cfg (Finite false w).
Proof.
  exact (renderedValue_number cfg w).
Qed.

Lemma rendered_number_dot_witness :
  renderedValue (mkConfig 2 Dot Comma)
    (defaultValue (Finite false 4654453986095781642))
  = formatNumber (mkConfig 2 Dot Comma) (Finite false 4654453986095781642)
  /\ renderedValue (mkConfig 2 Dot Comma)
       (VNum (Finite false 4654453986095781642))
     = formatNumber (mkConfig 2 Dot Comma)
         (Finite false 4654453986095781642).
Proof.
  apply (rendered_number_dot (mkConfig 2 Dot Comma) 4654453986095781642).
  - reflexivity.
  - unfold inf_bits. lia.
  - vm_compute. reflexivity.
Defined.

(** ** Rounding a printed decimal back *)

(** The two magnitudes next to [p/q] and the one [round_ratio] takes. *)
Lemma round_ratio_nearest (neg : bool) (p q : Z) :
  0 <= p -> 0 < q ->
  let r := floor_bits 63 p q 0 in
  0 <= r <= inf_bits
  /\ scaled r * q <= p * unit_scale
  /\ (r + 1 <= inf_bits -> p * unit_scale < scaled (r + 1) * q)
  /\ (r + 1 < inf_bits ->
      (round_ratio neg p q = Finite neg r
       /\ 2 * (p * unit_scale) <= (scaled r + scaled (r + 1)) * q)
      \/ (round_ratio neg p q = Finite neg (r + 1)
          /\ (scaled r + scaled (r + 1)) * q <= 2 * (p * unit_scale))).
Proof.
  intros Hp Hq. cbv zeta.
  pose proof (floor_bits_floor p q Hp Hq) as H. cbv zeta in H.
  destruct H as (Hr & Hlo & Hhi).
  unfold round_ratio.
  generalize dependent (floor_bits 63 p q 0). intros r Hr Hlo Hhi.
  repeat split; try lia; try assumption.
  intros Hlt.
  destruct (r =? inf_bits) eqn:E; [apply Z.eqb_eq in E; lia |].
  destruct (2 * (p * unit_scale) ?= (scaled r + scaled (r + 1)) * q) eqn:C.
  - pose proof (proj1 (Z.compare_eq_iff _ _) C) as C'. destruct (Z.even r).
    + left. destruct (r =? inf_bits) eqn:E2; [discriminate |].
      split; [reflexivity | lia].
    + right.
      destruct (r + 1 =? inf_bits) eqn:E2; [apply Z.eqb_eq in E2; lia |].
      split; [reflexivity | lia].
  - pose proof (proj1 (Z.compare_lt_iff _ _) C) as C'. left. rewrite E.
    split; [reflexivity | lia].
  - pose proof (proj1 (Z.compare_gt_iff _ _) C) as C'. right.
    destruct (r + 1 =? inf_bits) eqn:E2; [apply Z.eqb_eq in E2; lia |].
    split; [reflexivity | lia].
Qed.

(** A magnitude is a multiple of the distance to the next one. *)
Lemma scaled_multiple_of_gap (r : Z) :
  0 <= r -> exists m, scaled r = m * (scaled (r + 1) - scaled r).
Proof.
  intros Hr. unfold scaled, expo_field, frac_field.
  remember (2 ^ 52) as B eqn:HB.
  assert (HBpos : 0 < B) by (subst B; reflexivity).
  pose proof (Z.div_mod r B ltac:(lia)) as Hdm.
  pose proof (Z.mod_pos_bound r B HBpos) as Hm.
  assert (HE : 0 <= r / B) by (apply Z.div_pos; lia).
  destruct (Z.eq_dec (r mod B) (B - 1)) as [Hlast | Hnot].
  - assert (Hq : (r + 1) / B = r / B + 1)
      by (symmetry; apply Z.div_unique with (r := 0); lia).
    assert (Hrm : (r + 1) mod B = 0)
      by (symmetry; apply Z.mod_unique with (q := r / B + 1); lia).
    rewrite Hq, Hrm, Hlast.
    destruct (r / B =? 0) eqn:E0; destruct (r / B + 1 =? 0) eqn:E1;
      try (apply Z.eqb_eq in E1; lia).
    + apply Z.eqb_eq in E0. rewrite E0. exists (B - 1).
      change (2 ^ (0 + 1 - 1)) with 1. lia.
    + exists (2 * B - 1).
      replace (r / B + 1 - 1) with (Z.succ (r / B - 1)) by lia.
      apply Z.eqb_neq in E0. rewrite Z.pow_succ_r by lia. ring.
  - assert (Hq : (r + 1) / B = r / B)
      by (symmetry; apply Z.div_unique with (r := r mod B + 1); lia).
    assert (Hrm : (r + 1) mod B = r mod B + 1)
      by (symmetry; apply Z.mod_unique with (q := r / B); lia).
    rewrite Hq, Hrm.
    destruct (r / B =? 0) eqn:E0.
    + exists (r mod B). lia.
    + exists (B + r mod B). ring.
Qed.

Lemma fixedInteger_unique (w f n : Z) :
  (2 * n - 1) * unit_scale <= 2 * (scaled w * 10 ^ f) ->
  2 * (scaled w * 10 ^ f) < (2 * n + 1) * unit_scale ->
  fixedInteger w f = n.
Proof.
  intros H1 H2. unfold fixedInteger.
  pose proof unit_scale_pos as Hu.
  replace (2 * scaled w * 10 ^ f) with (2 * (scaled w * 10 ^ f)) by ring.
  revert H1 H2. generalize (scaled w * 10 ^ f) as x.
  generalize unit_scale Hu. intros u Hu' x H1 H2.
  symmetry. apply Z.div_unique with (r := 2 * x + u - 2 * u * n); lia.
Qed.

Lemma limit_gap :
  scaled (limit_bits - 1) + 131072 * unit_scale = 10 ^ 21 * unit_scale.
Proof. vm_compute. reflexivity. Qed.

(** The arithmetic of rounding back: [V], [R], [R'] are magnitudes, [R] and
    [R'] next to each other around [n/T], [V] not between them, and [n] is
    [V * T] rounded half up. *)
Lemma reround_down (U T V R R' n : Z) :
  0 < U -> 0 < T ->
  (2 * n - 1) * U <= 2 * (V * T) -> 2 * (V * T) < (2 * n + 1) * U ->
  R * T <= n * U -> n * U < R' * T ->
  V <= R \/ R' <= V ->
  2 * (n * U) <= (R + R') * T ->
  (2 * n - 1) * U <= 2 * (R * T) /\ 2 * (R * T) < (2 * n + 1) * U.
Proof. intros HU HT H1 H2 H3 H4 [H5 | H5] H6; split; nia. Qed.

Lemma reround_up (U T V R R' n m : Z) :
  0 < U -> 0 < T ->
  (2 * n - 1) * U <= 2 * (V * T) -> 2 * (V * T) < (2 * n + 1) * U ->
  R * T <= n * U -> n * U < R' * T ->
  V <= R \/ R' <= V ->
  (R + R') * T <= 2 * (n * U) ->
  R = m * (R' - R) ->
  (2 * n - 1) * U <= 2 * (R' * T) /\ 2 * (R' * T) < (2 * n + 1) * U.
Proof.
  intros HU HT H1 H2 H3 H4 H5 H6 Hm. split; [nia |].
  destruct H5 as [H5 | H5]; [| nia].
  assert (Hle : 2 * (R' * T) <= (2 * n + 1) * U) by nia.
  destruct (Z.eq_dec (2 * (R' * T)) ((2 * n + 1) * U)) as [Heq | Hne];
    [exfalso | lia].
  assert (HR : 2 * (R * T) = (2 * n - 1) * U) by nia.
  assert (Hg : (R' - R) * T = U) by nia.
  assert (HM : 2 * m * U = (2 * n - 1) * U).
  { rewrite <- HR, Hm, <- Hg. ring. }
  assert (2 * m = 2 * n - 1) by nia. lia.
Qed.

Lemma limit_below_inf : limit_bits + 1 < inf_bits.
Proof. vm_compute. reflexivity. Qed.

(** A number below [10^21], printed with [f] decimals and read back,
    is a number below [10^21] that is printed with the same digits. *)
Lemma fixed_digits_read_back (w f : Z) :
  0 <= w -> scaled w < 10 ^ 21 * unit_scale -> 0 <= f ->
  exists w',
    round_decimal false (fixedInteger w f) (- f) = Finite false w'
    /\ 0 <= w' < inf_bits
    /\ scaled w' < 10 ^ 21 * unit_scale
    /\ fixedInteger w' f = fixedInteger w f.
Proof.
  intros Hw Hlim Hf.
  pose proof (fixedInteger_nonneg w f Hw Hf) as Hn.
  pose proof (fixedInteger_nearest w f) as Hnear. cbv zeta in Hnear.
  destruct Hnear as [Hn1 Hn2].
  set (n := fixedInteger w f) in *.
  pose proof (pow10_pos f Hf) as HT.
  pose proof unit_scale_pos as HU.
  rewrite (round_decimal_ratio false n (- f) f) by lia.
  replace (- f + f) with 0 by lia. rewrite Z.pow_0_r, Z.mul_1_r.
  pose proof (round_ratio_nearest false n (10 ^ f) Hn HT) as Hr.
  cbv zeta in Hr. destruct Hr as (Hr0 & Hlo & Hhi & Hcases).
  set (r := floor_bits 63 n (10 ^ f) 0) in *.
  pose proof limit_gap as Hgap. pose proof scaled_limit as Hsl.
  pose proof limit_below_inf as Hli.
  assert (Hw1 : w <= limit_bits - 1).
  { rewrite <- Hsl in Hlim.
    apply scaled_lt_inv in Hlim; [lia | lia | unfold limit_bits; lia]. }
  pose proof (scaled_le w (limit_bits - 1) Hw Hw1) as HV.
  assert (Hr1 : r <= limit_bits - 1).
  { destruct (Z_le_gt_dec r (limit_bits - 1)) as [H | H]; [exact H |].
    exfalso.
    pose proof (scaled_le limit_bits r ltac:(unfold limit_bits; lia)
                  ltac:(lia)) as HR.
    rewrite Hsl in HR. nia. }
  specialize (Hhi ltac:(lia)). specialize (Hcases ltac:(lia)).
  assert (Hside : scaled w <= scaled r \/ scaled (r + 1) <= scaled w).
  { destruct (Z_le_gt_dec w r) as [H | H].
    - left. apply scaled_le; lia.
    - right. apply scaled_le; lia. }
  destruct Hcases as [[Hres Hmid] | [Hres Hmid]].
  - destruct (reround_down unit_scale (10 ^ f) (scaled w) (scaled r)
                (scaled (r + 1)) n HU HT Hn1 Hn2 Hlo Hhi Hside Hmid)
      as [Hb1 Hb2].
    exists r. split; [exact Hres |]. split; [lia |]. split.
    + rewrite <- Hsl. apply scaled_lt; lia.
    + apply fixedInteger_unique; assumption.
  - destruct (scaled_multiple_of_gap r ltac:(lia)) as [m Hm].
    destruct (reround_up unit_scale (10 ^ f) (scaled w) (scaled r)
                (scaled (r + 1)) n m HU HT Hn1 Hn2 Hlo Hhi Hside Hmid Hm)
      as [Hb1 Hb2].
    exists (r + 1). split; [exact Hres |]. split; [lia |]. split.
    + rewrite <- Hsl. apply scaled_lt; [lia |].
      destruct (Z.eq_dec (r + 1) limit_bits) as [E | E]; [exfalso | lia].
      rewrite E, Hsl in Hb2. nia.
    + apply fixedInteger_unique; assumption.
Qed.

Lemma formatNumber_same_digits (cfg : Config) (w w' : Z) :
  0 <= decimalLength cfg <= 100 ->
  scaled w < 10 ^ 21 * unit_scale ->
  scaled w' < 10 ^ 21 * unit_scale ->
  fixedInteger w' (decimalLength cfg) = fixedInteger w (decimalLength cfg) ->
  formatNumber cfg (Finite false w') = formatNumber cfg (Finite false w).
Proof.
  intros Hf Hl Hl' H. unfold formatNumber.
  rewrite !toFixed_fixed by assumption. rewrite H. reflexivity.
Qed.

Lemma removeOutside_inserted (sep c : ascii) (l : jsstring) : forall prev,
  isDigit sep = false -> Ascii.eqb sep c = false -> allDigits l ->
  removeOutside c (insertSeparators sep prev l) = l.
Proof.
  unfold removeOutside.
  induction l as [| x l IH]; intros prev Hsep Hc Hall.
  - rewrite insertSeparators_nil. reflexivity.
  - apply Forall_cons_iff in Hall. destruct Hall as [Hx Hall].
    rewrite insertSeparators_cons, filter_app. cbn [filter].
    rewrite Hx, IH by assumption. cbn [orb].
    destruct (_ && _); [| reflexivity].
    cbn [filter]. rewrite Hsep, Hc. reflexivity.
Qed.

Lemma normalizedValue_inserted (cfg : Config) (a : jsstring) :
  decimalSeparator cfg <> thousandSeparator cfg ->
  allDigits a ->
  normalizedValue cfg
    (insertSeparators (sepChar (thousandSeparator cfg)) None a)
  = a.
Proof.
  intros Hsep Ha. unfold normalizedValue, numericValue.
  rewrite removeOutside_inserted;
    [apply replaceChar_digits; exact Ha | apply sep_not_digit | | exact Ha].
  apply sepChar_eqb. congruence.
Qed.

(** With distinct separators the formatter reads its own text as the
    number that the digits denote. *)
Lemma numberValue_formatted (cfg : Config) (a b : jsstring) :
  decimalSeparator cfg <> thousandSeparator cfg ->
  a <> [] -> allDigits a -> allDigits b ->
  numberValue cfg
    (insertSeparators (sepChar (thousandSeparator cfg)) None a
     ++ sepChar (decimalSeparator cfg) :: b)
  = round_decimal false (digitsValue (a ++ b)) (- Z.of_nat (length b)).
Proof.
  intros Hsep Hne Ha Hb. unfold numberValue.
  rewrite normalizedValue_app, normalizedValue_inserted by assumption.
  rewrite normalizedValue_sep, (normalizedValue_digits cfg b Hb).
  rewrite <- (app_nil_r b) at 1.
  apply parseFloat_fraction; (assumption || exact I).
Qed.

Lemma numberValue_formatted_integer (cfg : Config) (a : jsstring) :
  decimalSeparator cfg <> thousandSeparator cfg ->
  a <> [] -> allDigits a ->
  numberValue cfg
    (insertSeparators (sepChar (thousandSeparator cfg)) None a)
  = round_decimal false (digitsValue a) 0.
Proof.
  intros Hsep Hne Ha. unfold numberValue.
  rewrite normalizedValue_inserted by assumption.
  apply parseFloat_integer; assumption.
Qed.

(** With distinct separators, what the formatter returns for a number below
    [10^21] is a text that it returns unchanged. *)
Lemma formatNumber_fixpoint (cfg : Config) (w : Z) (r : jsstring) :
  decimalSeparator cfg <> thousandSeparator cfg ->
  0 <= decimalLength cfg <= 100 ->
  0 <= w -> scaled w < 10 ^ 21 * unit_scale ->
  formatNumber cfg (Finite false w) = Normal r ->
  formatCurrency cfg (VStr r) = Normal r.
Proof.
  intros Hsep Hf Hw Hlim Hr.
  destruct (formatNumber_fixed cfg w Hf Hw Hlim)
    as (a & b & Hr' & Hne & Ha & Hb & Hlen & Hval).
  destruct (fixed_digits_read_back w (decimalLength cfg) Hw Hlim ltac:(lia))
    as (w' & Hround & Hw' & Hlim' & Hsame).
  assert (Hnum : numberValue cfg r = Finite false w').
  { rewrite Hr in Hr'. apply Normal_inj in Hr'. subst r.
    destruct (decimalLength cfg =? 0) eqn:E0.
    - apply Z.eqb_eq in E0. rewrite E0 in *.
      destruct b; [| discriminate Hlen]. rewrite !app_nil_r in *.
      rewrite numberValue_formatted_integer, Hval by assumption.
      exact Hround.
    - rewrite numberValue_formatted, Hval, Hlen, Z2Nat.id
        by (assumption || lia).
      exact Hround. }
  rewrite (formatCurrency_number cfg r w' Hnum).
  rewrite (formatNumber_same_digits cfg w w' Hf Hlim Hlim' Hsame).
  exact Hr.
Qed.

(** ** Formatting what was formatted *)

Lemma zeros_succ (n : Z) : 0 <= n -> zeros (n + 1) = "0" :: zeros n.
Proof.
  intros Hn. unfold zeros. rewrite Z2Nat.inj_add by lia. 
  change (Z.to_nat 1) with 1%nat. rewrite Nat.add_1_r. reflexivity.
Qed.

Lemma zeros_pred (n : Z) : 0 < n -> zeros n = "0" :: zeros (n - 1).
Proof.
  intros Hn. rewrite <- zeros_succ by lia. f_equal. lia.
Qed.

Lemma zeros_snoc (n : Z) : 0 <= n -> zeros n ++ ["0"] = "0" :: zeros n.
Proof.
  intros Hn. unfold zeros. symmetry. apply repeat_cons.
Qed.

Lemma fixedDigits_of_zero (f : Z) :
  0 < f -> fixedDigits 0 f = "0" :: "." :: zeros f.
Proof.
  intros Hf. unfold fixedDigits.
  destruct (f =? 0) eqn:E; [apply Z.eqb_eq in E; lia |].
  change (digitsOf 0) with ["0"]. cbn [length].
  change (Z.of_nat 1) with 1.
  destruct (1 <=? f) eqn:E1; [| apply Z.leb_gt in E1; lia].
  replace (f + 1 - 1) with f by lia.
  rewrite zeros_snoc by lia. cbn [length]. rewrite zeros_length.
  replace (Z.to_nat (Z.of_nat (S (Z.to_nat f)) - f)) with 1%nat by lia.
  reflexivity.
Qed.

Lemma fixedInteger_of_zero (f : Z) : 0 <= f -> fixedInteger 0 f = 0.
Proof.
  intros Hf. apply fixedInteger_unique; change (scaled 0) with 0;
    pose proof unit_scale_pos; lia.
Qed.

(** With at least one decimal, the zero sentinel is the text of the
    number zero. *)
Lemma formatNumber_zero (cfg : Config) :
  0 < decimalLength cfg <= 100 ->
  formatNumber cfg (Finite false 0) = Normal (zeroString cfg).
Proof.
  intros Hf. unfold formatNumber.
  rewrite toFixed_fixed; [| lia | change (scaled 0) with 0;
    pose proof unit_scale_pos;
    assert (0 < 10 ^ 21) by reflexivity; nia].
  cbn [bind].
  rewrite fixedInteger_of_zero, fixedDigits_of_zero by lia.
  assert (H0 : allDigits ["0"]) by (constructor; [reflexivity | constructor]).
  change ("0" :: "." :: zeros (decimalLength cfg))
    with (["0"] ++ "." :: zeros (decimalLength cfg)).
  rewrite split_digits_dot, split_digits
    by (exact H0 || apply allDigits_zeros).
  cbn [hd nth_error].
  rewrite insertSeparators_start, insertSeparators_nil by reflexivity.
  unfold zeroString. rewrite (zeros_pred (decimalLength cfg)) by lia.
  reflexivity.
Qed.

Lemma formatCurrency_idem (cfg : Config) (s : jsstring) :
  decimalSeparator cfg <> thousandSeparator cfg ->
  0 <= decimalLength cfg <= 100 ->
  rendersFixed cfg s = true ->
  exists r,
    formatCurrency cfg (VStr s) = Normal r
    /\ formatCurrency cfg (VStr r) = Normal r
    /\ handleReactHookFormChange cfg r = handleReactHookFormChange cfg s.
Proof.
  intros Hsep Hf Hr. unfold rendersFixed in Hr.
  assert (Hfix : exists w,
             0 <= w /\ scaled w < 10 ^ 21 * unit_scale
             /\ formatCurrency cfg (VStr s)
                = formatNumber cfg (Finite false w)).
  { destruct (numberValue_shape cfg s) as [E | [E | (w & E & Hw)]].
    - rewrite E in Hr. apply Z.ltb_lt in Hr. exists 0.
      split; [lia |]. split.
      + change (scaled 0) with 0. pose proof unit_scale_pos.
        assert (0 < 10 ^ 21) by reflexivity. nia.
      + rewrite formatNumber_zero by lia.
        unfold formatCurrency. rewrite E, zeroSentinel_normal by lia.
        cbn [isNaN]. destruct (isEmpty s); [reflexivity |].
        destruct (isEmpty (numericValue cfg s)); reflexivity.
    - rewrite E in Hr. discriminate Hr.
    - rewrite E in Hr. cbn [belowFixedLimit] in Hr. apply Z.ltb_lt in Hr.
      exists w. split; [lia |]. split; [exact Hr |].
      apply formatCurrency_number. exact E. }
  destruct Hfix as (w & Hw & Hlim & Hfmt).
  destruct (formatNumber_normal cfg (Finite false w) Hf) as [r Hnum].
  exists r. rewrite Hfmt.
  pose proof (formatNumber_fixpoint cfg w r Hsep Hf Hw Hlim Hnum) as Hfixp.
  split; [exact Hnum |]. split; [exact Hfixp |].
  unfold handleReactHookFormChange. rewrite Hfixp, Hfmt, Hnum. reflexivity.
Qed.

(** X9.  With distinct separators and [decimalLength] between 0 and 100,
    when the digits kept from the text denote a number below [10^21], or no
    number while [decimalLength > 0]: formatting is idempotent, and typing
    the formatted text passes the same number to the form. *)
Theorem format_idempotent (cfg : Config) (s : jsstring) :
  decimalSeparator cfg <> thousandSeparator cfg ->
  0 <= decimalLength cfg <= 100 ->
  rendersFixed cfg s = true ->
  exists r,
    formatCurrency cfg (VStr s) = Normal r
    /\ formatCurrency cfg (VStr r) = Normal r
    /\ handleReactHookFormChange cfg r = handleReactHookFormChange cfg s.
Proof.
  exact (formatCurrency_idem cfg s).
Qed.

Lemma format_idempotent_witness :
  exists r,
    formatCurrency defaultConfig (VStr (str "1234,567")) = Normal r
    /\ formatCurrency defaultConfig (VStr r) = Normal r
    /\ handleReactHookFormChange defaultConfig r
       = handleReactHookFormChange defaultConfig (str "1234,567").
Proof.
  apply (format_idempotent defaultConfig (str "1234,567")).
  - discriminate.
  - simpl. lia.
  - vm_compute. reflexivity.
Defined.

(** With decimal separator ["."] and thousand separator [","],
    [parseCurrency] keeps what the formatter keeps: on digits and
    separators it is the formatter's filter. *)
Lemma parseCurrency_filter_dot (cfg : Config) (r : jsstring) :
  decimalSeparator cfg = Dot ->
  thousandSeparator cfg = Comma ->
  Forall (fun x => isDigit x = true \/ x = "." \/ x = ",") r ->
  parseCurrency cfg r = numericValue cfg r.
Proof.
  intros Hds Hts Hr. unfold parseCurrency, numericValue, removeOutside.
  rewrite Hds, Hts. cbn [sepChar]. rewrite replaceChar_same.
  induction Hr as [| x r Hx Hr IH]; [reflexivity |].
  rewrite replaceChar_cons, IH. cbn [filter].
  destruct Hx as [Hx | [-> | ->]]; try reflexivity.
  pose proof (digit_not_sep x Comma Hx) as Hc. cbn [sepChar] in Hc.
  rewrite Hx, Hc. reflexivity.
Qed.

Lemma formatNumber_chars (cfg : Config) (w : Z) (r : jsstring) :
  0 <= decimalLength cfg <= 100 ->
  0 <= w -> scaled w < 10 ^ 21 * unit_scale ->
  formatNumber cfg (Finite false w) = Normal r ->
  Forall (fun x => isDigit x = true
                   \/ x = sepChar (decimalSeparator cfg)
                   \/ x = sepChar (thousandSeparator cfg)) r.
Proof.
  intros Hf Hw Hlim Hr.
  destruct (formatNumber_fixed cfg w Hf Hw Hlim)
    as (a & b & Hr' & _ & Ha & Hb & _).
  rewrite Hr in Hr'. apply Normal_inj in Hr'. subst r.
  unfold allDigits in Ha, Hb. rewrite Forall_forall in Ha, Hb.
  apply Forall_forall. intros x Hx. apply in_app_or in Hx.
  destruct Hx as [Hx | Hx].
  - apply insertSeparators_In in Hx. destruct Hx as [-> | Hx]; auto.
  - destruct (decimalLength cfg =? 0); [destruct Hx |].
    destruct Hx as [<- | Hx]; auto.
Qed.

(** X10.  With decimal separator ["."], thousand separator [","] and
    [decimalLength] between 0 and 100, when the digits kept from the text
    denote a number below [10^21], or no number while [decimalLength > 0]:
    formatting, parsing and formatting again returns the formatted
    text. *)
Theorem format_parse_format_dot (cfg : Config) (s : jsstring) :
  decimalSeparator cfg = Dot ->
  thousandSeparator cfg = Comma ->
  0 <= decimalLength cfg <= 100 ->
  rendersFixed cfg s = true ->
  exists r,
    formatCurrency cfg (VStr s) = Normal r
    /\ formatCurrency cfg (VStr (parseCurrency cfg r)) = Normal r.
Proof.
  intros Hds Hts Hf Hr.
  assert (Hsep : decimalSeparator cfg <> thousandSeparator cfg)
    by (rewrite Hds, Hts; discriminate).
  destruct (formatCurrency_idem cfg s Hsep Hf Hr) as (r & Hfmt & Hidem & _).
  exists r. split; [exact Hfmt |].
  assert (Hchars : Forall (fun x => isDigit x = true \/ x = "." \/ x = ",") r).
  { unfold rendersFixed in Hr.
    destruct (numberValue_shape cfg s) as [E | [E | (w & E & Hw)]];
      rewrite E in Hr; try discriminate Hr.
    - apply Z.ltb_lt in Hr.
      assert (Hz : formatCurrency cfg (VStr s) = Normal (zeroString cfg)).
      { unfold formatCurrency. rewrite E, zeroSentinel_normal by lia.
        cbn [isNaN]. destruct (isEmpty s); [reflexivity |].
        destruct (isEmpty (numericValue cfg s)); reflexivity. }
      rewrite Hz in Hfmt. apply Normal_inj in Hfmt. subst r.
      unfold zeroString. rewrite Hds.
      constructor; [left; reflexivity |].
      constructor; [right; left; reflexivity |].
      pose proof (allDigits_zeros (decimalLength cfg)) as Hzs.
      revert Hzs. apply Forall_impl. intros x Hx. left. exact Hx.
    - cbn [belowFixedLimit] in Hr. apply Z.ltb_lt in Hr.
      rewrite (formatCurrency_number cfg s w E) in Hfmt.
      pose proof (formatNumber_chars cfg w r Hf ltac:(lia) Hr Hfmt) as Hc.
      rewrite Hds, Hts in Hc. exact Hc. }
  rewrite (parseCurrency_filter_dot cfg r Hds Hts Hchars).
  rewrite <- formatCurrency_kept. exact Hidem.
Qed.

Lemma format_parse_format_dot_witness :
  exists r,
    formatCurrency (mkConfig 2 Dot Comma) (VStr (str "1234.567")) = Normal r
    /\ formatCurrency (mkConfig 2 Dot Comma)
         (VStr (parseCurrency (mkConfig 2 Dot Comma) r)) = Normal r.
Proof.
  apply (format_parse_format_dot (mkConfig 2 Dot Comma) (str "1234.567")).
  - reflexivity.
  - reflexivity.
  - simpl. lia.
  - vm_compute. reflexivity.
Defined.

(** X11.  With decimal separator ["."], thousand separator [","] and
    [decimalLength] between 0 and 100, when the digits kept from the text
    denote a number below [10^21] and the number passed to the form is one
    that [String] writes in plain notation: the text rendered for that
    number is the formatted text of the keystrokes. *)
Theorem rendered_after_change (cfg : Config) (userInput : jsstring) (y : Z) :
  decimalSeparator cfg = Dot ->
  thousandSeparator cfg = Comma ->
  0 <= decimalLength cfg <= 100 ->
  belowFixedLimit (numberValue cfg userInput) = true ->
  handleReactHookFormChange cfg userInput = Normal (Finite false y) ->
  plainNotation y = true ->
  renderedValue cfg (VNum (Finite false y))
  = formatCurrency cfg (VStr userInput).
Proof.
  intros Hds Hts Hf Hb Hchange Hplain.
  assert (Hsep : decimalSeparator cfg <> thousandSeparator cfg)
    by (rewrite Hds, Hts; discriminate).
  destruct (change_rounded cfg userInput Hsep Hf Hb)
    as (w & r & E & Hfmt & _ & Hch).
  destruct (belowFixedLimit_finite cfg userInput Hb) as (w0 & E0 & Hw & Hlim).
  rewrite E in E0. injection E0 as <-.
  destruct (fixed_digits_read_back w (decimalLength cfg)
              ltac:(lia) Hlim ltac:(lia))
    as (w' & Hround & Hw' & Hlim' & Hsame).
  rewrite Hch in Hchange. apply Normal_inj in Hchange.
  unfold roundToDigits in Hchange. rewrite Hround in Hchange.
  injection Hchange as <-.
  destruct (renderedValue_number cfg w' Hds Hw' Hplain) as [_ ->].
  rewrite (formatNumber_same_digits cfg w w' Hf Hlim Hlim' Hsame).
  symmetry. apply formatCurrency_number. exact E.
Qed.

Lemma rendered_after_change_witness :
  renderedValue (mkConfig 2 Dot Comma)
    (VNum (Finite false 4653144511727565537))
  = formatCurrency (mkConfig 2 Dot Comma) (VStr (str "1234.567")).
Proof.
  apply (rendered_after_change (mkConfig 2 Dot Comma) (str "1234.567")
           4653144511727565537).
  - reflexivity.
  - reflexivity.
  - simpl. lia.
  - vm_compute. reflexivity.
  - vm_compute. reflexivity.
  - vm_compute. reflexivity.
Defined.

(** ** At [10^21] and above *)

Lemma groupsTail_chars (ts : ascii) (n : nat) : forall l,
  (length l <= n)%nat ->
  groupsTail ts l = true ->
  Forall (fun x => isDigit x = true \/ x = ts) l.
Proof.
  induction n as [| n IH]; intros l Hlen H.
  - destruct l; [constructor | simpl in Hlen; lia].
  - destruct l as [| c [| d1 [| d2 [| d3 r]]]]; try discriminate H;
      [constructor |].
    cbn [groupsTail] in H.
    apply andb_prop in H. destruct H as [H Hr].
    apply andb_prop in H. destruct H as [H H3].
    apply andb_prop in H. destruct H as [H H2].
    apply andb_prop in H. destruct H as [Hc H1].
    apply Ascii.eqb_eq in Hc.
    repeat (constructor; [auto |]).
    apply IH; [cbn [length] in Hlen; lia | exact Hr].
Qed.

Lemma groupedInteger_chars (ts : ascii) (l : jsstring) :
  groupedInteger ts l = true ->
  Forall (fun x => isDigit x = true \/ x = ts) l.
Proof.
  assert (Ht : forall t, groupsTail ts t = true ->
                 Forall (fun x => isDigit x = true \/ x = ts) t)
    by (intros t; apply (groupsTail_chars ts (length t)); lia).
  destruct l as [| d1 r1]; [discriminate |]. cbn [groupedInteger].
  intros H. apply andb_prop in H. destruct H as [H1 H].
  constructor; [auto |].
  apply orb_prop in H. destruct H as [H | H]; [auto |].
  destruct r1 as [| d2 r2]; [discriminate |].
  apply andb_prop in H. destruct H as [H2 H].
  constructor; [auto |].
  apply orb_prop in H. destruct H as [H | H]; [auto |].
  destruct r2 as [| d3 r3]; [discriminate |].
  apply andb_prop in H. destruct H as [H3 H].
  constructor; auto.
Qed.

(** A display string has digits and separators only. *)
Lemma displayString_chars (cfg : Config) (r : jsstring) :
  displayString cfg r = true ->
  Forall (fun x => isDigit x = true
                   \/ x = sepChar (decimalSeparator cfg)
                   \/ x = sepChar (thousandSeparator cfg)) r.
Proof.
  unfold displayString. intros H.
  assert (Hg : forall l,
             groupedInteger (sepChar (thousandSeparator cfg)) l = true ->
             Forall (fun x => isDigit x = true
                              \/ x = sepChar (decimalSeparator cfg)
                              \/ x = sepChar (thousandSeparator cfg)) l).
  { intros l Hl. apply groupedInteger_chars in Hl. revert Hl.
    apply Forall_impl. intros x [Hx | Hx]; auto. }
  destruct (decimalLength cfg =? 0); [auto |].
  apply andb_prop in H. destruct H as [H1 H2].
  rewrite <- (firstn_skipn
                (length r - S (Z.to_nat (decimalLength cfg))) r).
  apply Forall_app. split; [auto |].
  destruct (skipn _ r) as [| c ds]; [discriminate H2 |].
  apply andb_prop in H2. destruct H2 as [H2 _].
  apply andb_prop in H2. destruct H2 as [Hc Hds].
  apply Ascii.eqb_eq in Hc.
  constructor; [auto |].
  apply Forall_forall. intros x Hx. left.
  rewrite forallb_forall in Hds. auto.
Qed.

Lemma insertSeparators_keeps (sep : ascii) (l : jsstring) : forall prev x,
  In x l -> In x (insertSeparators sep prev l).
Proof.
  induction l as [| c l IH]; intros prev x H; [destruct H |].
  rewrite insertSeparators_cons. apply in_or_app. right.
  destruct H as [-> | H]; [left; reflexivity | right; apply IH; exact H].
Qed.

Lemma split_without_dot (l : jsstring) :
  Forall (fun x => Ascii.eqb x "." = false) l -> split "." l = [l].
Proof.
  intros H. induction H as [| c l Hc Hl IH]; [reflexivity |].
  cbn [split]. rewrite Hc, IH. reflexivity.
Qed.

(** In exponent notation the formatter keeps the exponent mark. *)
Lemma formatNumber_exponent (cfg : Config) (x : number) (fv r : jsstring)
    (d : ascii) (m tail : jsstring) :
  toFixed x (decimalLength cfg) = Normal fv ->
  fv = d :: tail \/ fv = d :: "." :: m ++ tail ->
  isDigit d = true -> allDigits m ->
  Forall (fun c => Ascii.eqb c "." = false) tail ->
  In "e" tail ->
  formatNumber cfg x = Normal r ->
  In "e" r.
Proof.
  intros Hfv Hshape Hd Hm Htail He. unfold formatNumber.
  rewrite Hfv. cbn [bind]. intros H. apply Normal_inj in H. subst r.
  apply in_or_app.
  destruct Hshape as [-> | ->].
  - left. rewrite split_without_dot.
    + cbn [hd]. apply insertSeparators_keeps. right. exact He.
    + constructor; [apply digit_not_dot; exact Hd | exact Htail].
  - right.
    change (d :: "." :: m ++ tail) with ([d] ++ "." :: (m ++ tail)).
    rewrite split_digits_dot
      by (constructor; [exact Hd | constructor]).
    rewrite split_without_dot.
    + cbn [nth_error].
      destruct (m ++ tail) as [| c p] eqn:E.
      * apply app_eq_nil in E. destruct E as [_ ->]. destruct He.
      * rewrite <- E. right. apply in_or_app. right. exact He.
    + apply Forall_app. split; [| exact Htail].
      revert Hm. apply Forall_impl. intros c Hc.
      apply digit_not_dot. exact Hc.
Qed.

Lemma toFixed_exponent (w f : Z) :
  0 <= f <= 100 ->
  0 <= w < inf_bits ->
  10 ^ 21 * unit_scale <= scaled w ->
  exists d m tail,
    (toFixed (Finite false w) f = Normal (d :: tail)
     \/ toFixed (Finite false w) f = Normal (d :: "." :: m ++ tail))
    /\ isDigit d = true /\ allDigits m
    /\ Forall (fun c => Ascii.eqb c "." = false) tail
    /\ In "e" tail.
Proof.
  intros Hf Hw Hbig. unfold toFixed.
  destruct (f <? 0) eqn:E1; [apply Z.ltb_lt in E1; lia |].
  destruct (100 <? f) eqn:E2; [apply Z.ltb_lt in E2; lia |].
  cbn [orb andb app].
  pose proof Hbig as Hbig'. apply Z.leb_le in Hbig'. rewrite Hbig'.
  assert (Hnp : plainNotation w = false).
  { destruct (plainNotation w) eqn:Ep; [| reflexivity].
    pose proof (plain_below_limit w Hw Ep). lia. }
  unfold plainNotation in Hnp. apply orb_false_elim in Hnp.
  destruct Hnp as [Hw0 Hnp].
  unfold toString. rewrite Hw0, app_nil_l.
  destruct (shortest w) as [s e] eqn:Es.
  destruct (shortest_ok w s e Hw Es) as [_ Hs].
  unfold renderDecimal. rewrite Hnp.
  pose proof (digitsOf_all s Hs) as Hall.
  pose proof (digitsOf_nonempty s) as Hne.
  set (n := e + Z.of_nat (length (digitsOf s))) in *.
  assert (Htail : Forall (fun c => Ascii.eqb c "." = false)
                    ("e" :: (if n - 1 <? 0 then "-" else "+")
                     :: digitsOf (Z.abs (n - 1)))).
  { constructor; [reflexivity |].
    constructor; [destruct (n - 1 <? 0); reflexivity |].
    pose proof (digitsOf_all (Z.abs (n - 1)) ltac:(lia)) as Hd.
    revert Hd. apply Forall_impl. intros c Hc. apply digit_not_dot, Hc. }
  revert Htail.
  generalize ((if n - 1 <? 0 then "-" else "+") :: digitsOf (Z.abs (n - 1))).
  intros t Htail.
  destruct (digitsOf s) as [| d [| d' m]]; [contradiction | |].
  - exists d, [], ("e" :: t).
    apply Forall_cons_iff in Hall. destruct Hall as [Hd _].
    split; [left; reflexivity |].
    repeat split; try assumption; [constructor | left; reflexivity].
  - exists d, (d' :: m), ("e" :: t).
    apply Forall_cons_iff in Hall. destruct Hall as [Hd Hall].
    split; [right; reflexivity |].
    repeat split; try assumption. left. reflexivity.
Qed.

(** X12.  With [decimalLength] between 0 and 100, when the digits kept
    from the text denote [10^21] or more, the formatter returns exponent
    notation or ["Infinity"]: a text that is not a display string. *)
Theorem format_above_limit (cfg : Config) (s : jsstring) :
  0 <= decimalLength cfg <= 100 ->
  isNaN (numberValue cfg s) = false ->
  belowFixedLimit (numberValue cfg s) = false ->
  exists r,
    formatCurrency cfg (VStr s) = Normal r
    /\ (r = str "Infinity" \/ containsChar "e" r = true)
    /\ displayString cfg r = false.
Proof.
  intros Hf Hnan Hb.
  destruct (formatCurrency_normal cfg (VStr s) Hf) as [r Hr].
  exists r. split; [exact Hr |].
  assert (Hletter : r = str "Infinity" \/ In "e" r).
  { destruct (numberValue_shape cfg s) as [E | [E | (w & E & Hw)]].
    - rewrite E in Hnan. discriminate Hnan.
    - left. unfold formatCurrency in Hr.
      destruct (numberValue_nonempty cfg s Hnan) as [H1 H2].
      rewrite H1, H2, E in Hr. cbn [isNaN] in Hr.
      destruct (formatNumber_starts cfg (Infinity false) r
                  (or_introl eq_refl) Hr) as [-> | Hd]; [reflexivity |].
      exfalso. unfold formatNumber, toFixed in Hr.
      destruct ((decimalLength cfg <? 0) || (100 <? decimalLength cfg));
        [discriminate Hr |].
      cbn [bind] in Hr. apply Normal_inj in Hr. subst r.
      destruct (thousandSeparator cfg); discriminate Hd.
    - right. rewrite E in Hb. cbn [belowFixedLimit] in Hb.
      apply Z.ltb_ge in Hb.
      rewrite (formatCurrency_number cfg s w E) in Hr.
      destruct (toFixed_exponent w (decimalLength cfg) Hf Hw Hb)
        as (d & m & tail & Hfv & Hd & Hm & Htail & He).
      destruct Hfv as [Hfv | Hfv];
        eapply (formatNumber_exponent cfg _ _ r d m tail Hfv);
        eauto. }
  split.
  - destruct Hletter as [-> | He]; [left; reflexivity | right].
    unfold containsChar. apply existsb_exists. exists "e".
    split; [exact He | reflexivity].
  - destruct (displayString cfg r) eqn:Ed; [exfalso | reflexivity].
    apply displayString_chars in Ed. rewrite Forall_forall in Ed.
    destruct Hletter as [-> | He].
    + destruct (Ed "I" ltac:(left; reflexivity)) as [H | [H | H]];
        [discriminate H | |];
        [destruct (decimalSeparator cfg) | destruct (thousandSeparator cfg)];
        discriminate H.
    + destruct (Ed "e" He) as [H | [H | H]];
        [discriminate H | |];
        [destruct (decimalSeparator cfg) | destruct (thousandSeparator cfg)];
        discriminate H.
Qed.

Lemma format_above_limit_witness :
  exists r,
    formatCurrency defaultConfig (VStr (str "1234567890123456789012"))
    = Normal r
    /\ (r = str "Infinity" \/ containsChar "e" r = true)
    /\ displayString defaultConfig r = false.
Proof.
  apply (format_above_limit defaultConfig (str "1234567890123456789012")).
  - simpl. lia.
  - vm_compute. reflexivity.
  - vm_compute. reflexivity.
Defined.

(** ** The text of zero *)

(** X13.  With [decimalLength] between 0 and 100, a text whose kept digits
    denote zero (["0"], the text of the default initial value, ["000"],
    ["0,0"]) is formatted as the zero sentinel when [decimalLength > 0];
    with [decimalLength = 0] it is formatted as ["0"], without the
    separator that the sentinel of the empty text carries. *)
Theorem format_zero (cfg : Config) (s : jsstring) :
  0 <= decimalLength cfg <= 100 ->
  numberValue cfg s = Finite false 0 ->
  formatCurrency cfg (VStr s)
  = Normal (if decimalLength cfg =? 0 then str "0" else zeroString cfg).
Proof.
  intros Hf E. rewrite (formatCurrency_number cfg s 0 E).
  destruct (decimalLength cfg =? 0) eqn:E0.
  - apply Z.eqb_eq in E0. unfold formatNumber. rewrite E0.
    destruct (thousandSeparator cfg); reflexivity.
  - apply Z.eqb_neq in E0. apply formatNumber_zero. lia.
Qed.

Lemma format_zero_witness :
  formatCurrency defaultConfig (VStr (toString (Finite false 0)))
  = Normal (zeroString defaultConfig).
Proof.
  apply (format_zero defaultConfig (toString (Finite false 0))).
  - simpl. lia.
  - vm_compute. reflexivity.
Defined.
